(** * OUTIL-EXIF-IMAGE: the geotagging front end and the metadata pipeline

    The first half of this development embeds the TypeScript front end
    (ImageUploader, FormatSelector, the Home page and the api client).
    The second half models the geotagging core (coordinate codec, GPS
    directory, container embedders, pipeline), whose implementation lives
    in the Python back end. *)

From Stdlib Require Import List String Ascii Bool Arith NArith ZArith Lia.
From Stdlib Require Import QArith Qround Qabs Lqa.
From Stdlib.Strings Require Import Byte.
Import ListNotations.

(* ================================================================== *)
(** ** JavaScript strings *)

(** A JavaScript string is a sequence of UTF-16 code units. *)
Module JS.

Local Open Scope N_scope.

Definition code_unit := N.
Definition jsstring := list code_unit.

(** An ASCII literal of the source, as code units. *)
Definition lit (s : string) : jsstring :=
  map N_of_ascii (list_ascii_of_string s).

(** WhiteSpace and LineTerminator code points of ECMAScript, the ones
    [String.prototype.trim] strips. *)
Definition is_whitespace (c : code_unit) : bool :=
  ((9 <=? c) && (c <=? 13)) || (c =? 32) || (c =? 160) || (c =? 5760)
  || ((8192 <=? c) && (c <=? 8202))
  || (c =? 8232) || (c =? 8233) || (c =? 8239) || (c =? 8287)
  || (c =? 12288) || (c =? 65279).

Fixpoint trimStart (s : jsstring) : jsstring :=
  match s with
  | [] => []
  | c :: r => if is_whitespace c then trimStart r else s
  end.

Definition trimEnd (s : jsstring) : jsstring := rev (trimStart (rev s)).

Definition trim (s : jsstring) : jsstring := trimEnd (trimStart s).

(** Truthiness of a string: the empty string is the only falsy one. *)
Definition truthy (s : jsstring) : bool :=
  match s with [] => false | _ :: _ => true end.

(** [s.startsWith(p)]. *)
Fixpoint startsWith (s p : jsstring) {struct p} : bool :=
  match p with
  | [] => true
  | a :: p' =>
      match s with
      | [] => false
      | b :: s' => (a =? b) && startsWith s' p'
      end
  end.

(** [s.split(sep)] for a separator of one code unit. The result always has
    at least one piece. *)
Fixpoint split (sep : code_unit) (s : jsstring) : list jsstring :=
  match s with
  | [] => [[]]
  | c :: r =>
      if c =? sep then [] :: split sep r
      else match split sep r with
           | h :: t => (c :: h) :: t
           | [] => [[c]]
           end
  end.

(** [Array.prototype.find]. *)
Fixpoint find {A} (p : A -> bool) (l : list A) : option A :=
  match l with
  | [] => None
  | x :: r => if p x then Some x else find p r
  end.

(** Interpolation of an array element in a template literal: a hole holding
    [undefined] prints as the word. *)
Definition interpolate (o : option jsstring) : jsstring :=
  match o with Some s => s | None => lit "undefined" end.

Definition dot : code_unit := 46.

End JS.

Import JS.

(* ================================================================== *)
(** ** Browser values *)

Definition Blob := list byte.

Record File := mkFile {
  name : jsstring;
  type : jsstring;
  contents : Blob
}.

(* ================================================================== *)
(** ** components/ImageUploader.tsx *)

Module ImageUploader.

(** What a handler of the component does: the new value of the local
    [isDragging] state and the calls made to the [onImageSelected] prop. *)
Record outcome := mkOutcome {
  isDragging : bool;
  onImageSelected_calls : list File
}.

Definition is_image (file : File) : bool :=
  startsWith (type file) (lit "image/").

Definition handleDragOver : outcome := mkOutcome true [].
Definition handleDragLeave : outcome := mkOutcome false [].

(** [files] is [Array.from(e.dataTransfer.files)]. *)
Definition handleDrop (files : list File) : outcome :=
  let imageFile := find is_image files in
  match imageFile with
  | Some f => mkOutcome false [f]
  | None => mkOutcome false []
  end.

(** [files] is [e.target.files]: [None] when the property is null. *)
Definition handleFileInput (files : option (list File)) : list File :=
  match files with
  | Some (f :: _) => [f]
  | _ => []
  end.

End ImageUploader.

(* ================================================================== *)
(** ** components/FormatSelector.tsx and lib/api.ts *)

(** The union type ['jpeg' | 'png' | 'webp']. *)
Inductive Format := jpeg | png | webp.

(** The string a value of the union is at run time. *)
Definition format_string (f : Format) : jsstring :=
  match f with
  | jpeg => lit "jpeg"
  | png => lit "png"
  | webp => lit "webp"
  end.

Module FormatSelector.

Record option_entry := mkEntry {
  value : Format;
  label : jsstring;
  description : jsstring
}.

Definition formats : list option_entry :=
  [ mkEntry jpeg (lit "JPEG") (lit "Best for photos");
    mkEntry png (lit "PNG") (lit "Lossless quality");
    mkEntry webp (lit "WEBP") (lit "Modern format") ].

(** One button per entry of [formats]; a click on the [i]-th button calls
    [onChange(format.value)]. There is no button past the table. *)
Definition click (i : nat) : option Format :=
  option_map value (nth_error formats i).

End FormatSelector.

Module Api.

Record ProcessImageRequest := mkRequest {
  file : File;
  address : jsstring;
  format : Format
}.

(** The multipart fields [processImage] appends, in order. *)
Inductive field_value :=
| FileField (f : File)
| TextField (s : jsstring).

Definition formData (data : ProcessImageRequest) : list (jsstring * field_value) :=
  [ (lit "file", FileField (file data));
    (lit "address", TextField (address data));
    (lit "format", TextField (format_string (format data))) ].

(** How the awaited request ends: the response blob, or a rejection whose
    [err.response?.data?.detail] may be absent. *)
Inductive response :=
| Resolved (blob : Blob)
| Rejected (detail : option jsstring).

End Api.

(* ================================================================== *)
(** ** app/page.tsx *)

Module Home.

Record state := mkState {
  selectedImage : option File;
  address : jsstring;
  format : Format;
  isProcessing : bool;
  processedBlob : option Blob;
  error : option jsstring;
  success : bool
}.

Definition initial : state :=
  mkState None [] jpeg false None None false.

Definition setSelectedImage (v : option File) (s : state) : state :=
  mkState v (address s) (format s) (isProcessing s) (processedBlob s) (error s) (success s).
Definition setAddress (v : jsstring) (s : state) : state :=
  mkState (selectedImage s) v (format s) (isProcessing s) (processedBlob s) (error s) (success s).
Definition setFormat (v : Format) (s : state) : state :=
  mkState (selectedImage s) (address s) v (isProcessing s) (processedBlob s) (error s) (success s).
Definition setIsProcessing (v : bool) (s : state) : state :=
  mkState (selectedImage s) (address s) (format s) v (processedBlob s) (error s) (success s).
Definition setProcessedBlob (v : option Blob) (s : state) : state :=
  mkState (selectedImage s) (address s) (format s) (isProcessing s) v (error s) (success s).
Definition setError (v : option jsstring) (s : state) : state :=
  mkState (selectedImage s) (address s) (format s) (isProcessing s) (processedBlob s) v (success s).
Definition setSuccess (v : bool) (s : state) : state :=
  mkState (selectedImage s) (address s) (format s) (isProcessing s) (processedBlob s) (error s) v.

(** What [handleProcess] does to the world outside the component state. *)
Inductive effect :=
| ProcessImage (req : Api.ProcessImageRequest)
| CreateObjectURL (blob : Blob)
| ClickDownload (download : jsstring) (href : Blob)
| RevokeObjectURL (blob : Blob).

Definition missing_inputs_message : jsstring :=
  lit "Please select an image and enter an address".

Definition failure_message : jsstring :=
  lit "Failed to process image. Please try again.".

(** [`${selectedImage.name.split('.')[0]}_gps.${format}`] *)
Definition download_name (image : File) (fmt : Format) : jsstring :=
  interpolate (nth_error (split dot (name image)) 0)
    ++ lit "_gps." ++ format_string fmt.

(** [a || b] on an optional string: [undefined] and the empty string are
    falsy. *)
Definition or_else (a : option jsstring) (b : jsstring) : jsstring :=
  match a with
  | Some s => if truthy s then s else b
  | None => b
  end.

(** [handleProcess], run to completion against the answer [resp] the
    request receives. The component values read inside the handler are
    those of the render it was created in, [s]. *)
Definition handleProcess (resp : Api.response) (s : state) : state * list effect :=
  match selectedImage s with
  | None => (setError (Some missing_inputs_message) s, [])
  | Some image =>
      if negb (truthy (trim (address s))) then
        (setError (Some missing_inputs_message) s, [])
      else
        let s1 := setProcessedBlob None
                    (setSuccess false (setError None (setIsProcessing true s))) in
        let req := Api.mkRequest image (address s) (format s) in
        match resp with
        | Api.Resolved blob =>
            let s2 := setSuccess true (setProcessedBlob (Some blob) s1) in
            (setIsProcessing false s2,
             [ ProcessImage req;
               CreateObjectURL blob;
               ClickDownload (download_name image (format s)) blob;
               RevokeObjectURL blob ])
        | Api.Rejected detail =>
            let s2 := setError (Some (or_else detail failure_message)) s1 in
            (setIsProcessing false s2, [ ProcessImage req ])
        end
  end.

(** The condition of the button's [disabled] attribute. *)
Definition process_disabled (s : state) : bool :=
  match selectedImage s with
  | None => true
  | Some _ => negb (truthy (trim (address s))) || isProcessing s
  end.

(** The user's actions on the page. A disabled button dispatches no
    click. *)
Inductive event :=
| SelectImage (f : File)              (* ImageUploader: file input *)
| DropFiles (files : list File)       (* ImageUploader: drop *)
| TypeAddress (a : jsstring)          (* AddressInput: onChange *)
| ClickFormat (i : nat)               (* FormatSelector: i-th button *)
| ClickProcess (resp : Api.response). (* the process button *)

Definition apply_calls (calls : list File) (s : state) : state :=
  fold_left (fun acc f => setSelectedImage (Some f) acc) calls s.

Definition step (s : state) (e : event) : state * list effect :=
  match e with
  | SelectImage f =>
      (apply_calls (ImageUploader.handleFileInput (Some [f])) s, [])
  | DropFiles files =>
      (apply_calls (ImageUploader.onImageSelected_calls
                      (ImageUploader.handleDrop files)) s, [])
  | TypeAddress a => (setAddress a s, [])
  | ClickFormat i =>
      match FormatSelector.click i with
      | Some f => (setFormat f s, [])
      | None => (s, [])
      end
  | ClickProcess resp =>
      if process_disabled s then (s, []) else handleProcess resp s
  end.

End Home.


(* ================================================================== *)
(** ** components/ImageUploader.tsx: the drop zone over time *)

Module DropZone.
Import ImageUploader.

(** The drag events the zone listens to. *)
Inductive drag_event :=
| DragOver
| DragLeave
| Drop (files : list File).

Definition handle (e : drag_event) : outcome :=
  match e with
  | DragOver => handleDragOver
  | DragLeave => handleDragLeave
  | Drop files => handleDrop files
  end.

(** The zone after a sequence of events, [dragging] being the value of
    [isDragging] before them, with the calls to [onImageSelected] in
    order. *)
Fixpoint run (dragging : bool) (es : list drag_event) : outcome :=
  match es with
  | [] => mkOutcome dragging []
  | e :: r =>
      let o := handle e in
      let o' := run (isDragging o) r in
      mkOutcome (isDragging o') (onImageSelected_calls o ++ onImageSelected_calls o')
  end.

Definition is_drop (e : drag_event) : bool :=
  match e with Drop _ => true | _ => false end.

End DropZone.

(* ================================================================== *)
(** ** components/FormatSelector.tsx: the highlighted button *)

Module FormatButtons.

Definition Format_eqb (a b : Format) : bool :=
  match a, b with
  | jpeg, jpeg | png, png | webp, webp => true
  | _, _ => false
  end.

(** [value === format.value], button by button. *)
Definition highlighted (value : Format) : list bool :=
  map (fun entry => Format_eqb value (FormatSelector.value entry))
      FormatSelector.formats.

End FormatButtons.

(* ================================================================== *)
(** ** lib/api.ts: the requests *)

Module ApiClient.

Inductive method := GET | POST.

Record request := mkHttp {
  verb : method;
  url : jsstring;
  form : list (jsstring * Api.field_value);
  responseType : option jsstring;
  headers : list (jsstring * jsstring)
}.

Definition default_url : jsstring := lit "http://localhost:8000".

(** [process.env.NEXT_PUBLIC_API_URL || 'http://localhost:8000'] *)
Definition API_URL (env : option jsstring) : jsstring :=
  Home.or_else env default_url.

Definition processImage (env : option jsstring) (data : Api.ProcessImageRequest)
  : request :=
  mkHttp POST (API_URL env ++ lit "/process-image") (Api.formData data)
         (Some (lit "blob"))
         [(lit "Content-Type", lit "multipart/form-data")].

Definition getCoordinates (env : option jsstring) (address : jsstring) : request :=
  mkHttp POST (API_URL env ++ lit "/get-coordinates")
         [(lit "address", Api.TextField address)] None [].

Definition healthCheck (env : option jsstring) : request :=
  mkHttp GET (API_URL env ++ lit "/health") [] None [].

End ApiClient.

(* ================================================================== *)
(** ** app/page.tsx: the handler around its await *)

Module Page.
Import Home.

(** The values [handleProcess] holds across its [await]: those of the
    render the click happened in. *)
Record closure := mkClosure {
  captured_image : File;
  captured_address : jsstring;
  captured_format : Format
}.

Definition request_of (c : closure) : Api.ProcessImageRequest :=
  Api.mkRequest (captured_image c) (captured_address c) (captured_format c).

(** [handleProcess] up to the call of [api.processImage]: the state it
    leaves and, when the guard lets it through, what it goes on with. *)
Definition beginProcess (s : state) : state * option closure :=
  match selectedImage s with
  | None => (setError (Some missing_inputs_message) s, None)
  | Some image =>
      if negb (truthy (trim (address s))) then
        (setError (Some missing_inputs_message) s, None)
      else
        (setProcessedBlob None
           (setSuccess false (setError None (setIsProcessing true s))),
         Some (mkClosure image (address s) (format s)))
  end.

(** [handleProcess] from the answer on, in the state of that moment. *)
Definition completeProcess (resp : Api.response) (c : closure) (s : state)
  : state * list effect :=
  match resp with
  | Api.Resolved blob =>
      (setIsProcessing false (setSuccess true (setProcessedBlob (Some blob) s)),
       [ CreateObjectURL blob;
         ClickDownload (download_name (captured_image c) (captured_format c)) blob;
         RevokeObjectURL blob ])
  | Api.Rejected detail =>
      (setIsProcessing false
         (setError (Some (or_else detail failure_message)) s),
       [])
  end.

(** The part of the state [handleProcess] writes. *)
Definition progress (s : state) : bool * option Blob * option jsstring * bool :=
  (isProcessing s, processedBlob s, error s, success s).

(** The page and the requests it is waiting for, oldest first. *)
Record page := mkPage {
  view : state;
  inflight : list closure
}.

Definition start : page := mkPage initial [].

Inductive action :=
| Select (f : File)
| DropOn (files : list File)
| TypeIn (a : jsstring)
| PickFormat (i : nat)
| Click
| Settle (resp : Api.response).

Definition is_settle (a : action) : bool :=
  match a with Settle _ => true | _ => false end.

Definition act (p : page) (a : action) : page * list effect :=
  match a with
  | Select f =>
      (mkPage (fst (step (view p) (SelectImage f))) (inflight p), [])
  | DropOn files =>
      (mkPage (fst (step (view p) (DropFiles files))) (inflight p), [])
  | TypeIn a =>
      (mkPage (fst (step (view p) (TypeAddress a))) (inflight p), [])
  | PickFormat i =>
      (mkPage (fst (step (view p) (ClickFormat i))) (inflight p), [])
  | Click =>
      if process_disabled (view p) then (p, [])
      else
        match beginProcess (view p) with
        | (s, Some c) => (mkPage s (inflight p ++ [c]), [ProcessImage (request_of c)])
        | (s, None) => (mkPage s (inflight p), [])
        end
  | Settle resp =>
      match inflight p with
      | [] => (p, [])
      | c :: rest =>
          let '(s, out) := completeProcess resp c (view p) in
          (mkPage s rest, out)
      end
  end.

Fixpoint play (p : page) (l : list action) : page * list effect :=
  match l with
  | [] => (p, [])
  | a :: r =>
      let '(p1, out1) := act p a in
      let '(p2, out2) := play p1 r in
      (p2, out1 ++ out2)
  end.

(** The blobs given to [URL.createObjectURL] and to
    [URL.revokeObjectURL], in order. *)
Fixpoint created (l : list effect) : list Blob :=
  match l with
  | [] => []
  | CreateObjectURL b :: r => b :: created r
  | _ :: r => created r
  end.

Fixpoint revoked (l : list effect) : list Blob :=
  match l with
  | [] => []
  | RevokeObjectURL b :: r => b :: revoked r
  | _ :: r => revoked r
  end.

Fixpoint requests (l : list effect) : list Api.ProcessImageRequest :=
  match l with
  | [] => []
  | ProcessImage req :: r => req :: requests r
  | _ :: r => requests r
  end.

End Page.

(* ================================================================== *)
(** ** components/AddressInput.tsx *)

Module AddressInput.

Section Numbers.

(** A JavaScript number; the component only passes it along. *)
Variable number : Type.

Record CoordinatesResponse := mkCoordinates {
  address : jsstring;
  latitude : number;
  longitude : number
}.

(** How [api.getCoordinates] ends. *)
Inductive response :=
| Found (result : CoordinatesResponse)
| Failed (detail : option jsstring).

Record state := mkState {
  isValidating : bool;
  coordinates : option (number * number);
  error : option jsstring
}.

Inductive effect :=
| GetCoordinates (value : jsstring)
| OnCoordinatesFound (lat lon : number).

Definition not_found_message : jsstring := lit "Could not find this address".

(** [handleBlur] up to the call of [api.getCoordinates]; the boolean tells
    whether the call is made. *)
Definition beginBlur (value : jsstring) (s : state) : state * bool :=
  if negb (truthy (trim value)) then
    (mkState (isValidating s) None None, false)
  else
    (mkState true (coordinates s) None, true).

(** [handleBlur] from the answer on; [callback] tells whether the
    [onCoordinatesFound] prop was given. *)
Definition completeBlur (callback : bool) (resp : response) (s : state)
  : state * list effect :=
  match resp with
  | Found result =>
      (mkState false (Some (latitude result, longitude result)) (error s),
       if callback then [OnCoordinatesFound (latitude result) (longitude result)]
       else [])
  | Failed detail =>
      (mkState false None (Some (Home.or_else detail not_found_message)), [])
  end.

(** [handleBlur] when nothing else happens while it waits. *)
Definition handleBlur (callback : bool) (value : jsstring) (resp : response)
    (s : state) : state * list effect :=
  match beginBlur value s with
  | (s1, true) =>
      let '(s2, out) := completeBlur callback resp s1 in
      (s2, GetCoordinates value :: out)
  | (s1, false) => (s1, [])
  end.

(** The blocks the component renders under the input. *)
Definition shows_found (s : state) : bool :=
  match coordinates s with Some _ => true | None => false end.

Definition shows_error (s : state) : bool :=
  match error s with Some m => truthy m | None => false end.

End Numbers.

Arguments mkCoordinates {number}.
Arguments Found {number}.
Arguments Failed {number}.
Arguments mkState {number}.
Arguments GetCoordinates {number}.
Arguments OnCoordinatesFound {number}.
Arguments isValidating {number}.
Arguments coordinates {number}.
Arguments error {number}.
Arguments latitude {number}.
Arguments longitude {number}.
Arguments beginBlur {number}.
Arguments completeBlur {number}.
Arguments handleBlur {number}.
Arguments shows_found {number}.
Arguments shows_error {number}.

End AddressInput.

(* ================================================================== *)
(** ** components/ImagePreview.tsx *)

Module ImagePreview.

(** Object URLs, numbered in the order the browser hands them out. *)
Definition object_url := nat.

Inductive effect :=
| CreateObjectURL (u : object_url) (file : File)
| RevokeObjectURL (u : object_url).

(** The mounted component: its [previewUrl] state and the URL the cleanup
    of its last effect will revoke, if that effect returned a cleanup. *)
Record instance := mkInstance {
  previewUrl : option object_url;
  cleanup : option object_url
}.

(** Before the first effect runs. *)
Definition unmounted : instance := mkInstance None None.

(** The body of the effect, [fresh] being the next URL of the browser. *)
Definition effect_body (file : option File) (fresh : object_url)
  : instance * list effect * object_url :=
  match file with
  | None => (mkInstance None None, [], fresh)
  | Some f => (mkInstance (Some fresh) (Some fresh), [CreateObjectURL fresh f], S fresh)
  end.

Definition run_cleanup (i : instance) : list effect :=
  match cleanup i with
  | Some u => [RevokeObjectURL u]
  | None => []
  end.

(** One run of the effect for a new value of [file]: the cleanup of the
    run before, then the body. *)
Definition update (i : instance) (fresh : object_url) (file : option File)
  : instance * list effect * object_url :=
  let '(i', out, fresh') := effect_body file fresh in
  (i', run_cleanup i ++ out, fresh').

(** The successive values of the [file] prop, from mount on, each one a
    change of the prop. *)
Fixpoint updates (i : instance) (fresh : object_url) (files : list (option File))
  : instance * list effect * object_url :=
  match files with
  | [] => (i, [], fresh)
  | f :: r =>
      let '(i1, out1, fresh1) := update i fresh f in
      let '(i2, out2, fresh2) := updates i1 fresh1 r in
      (i2, out1 ++ out2, fresh2)
  end.

(** The URL the component holds for revocation, as a list. *)
Definition live_of (i : instance) : list object_url :=
  match cleanup i with Some u => [u] | None => [] end.

(** From mount to unmount. *)
Definition lifetime (fresh : object_url) (files : list (option File)) : list effect :=
  let '(i, out, _) := updates unmounted fresh files in
  out ++ run_cleanup i.

(** What the component renders: nothing without a preview URL. *)
Definition renders (i : instance) : bool :=
  match previewUrl i with Some _ => true | None => false end.

(** The URLs alive after a trace, starting from those in [live]; nothing
    when the trace creates a URL that is alive or revokes one that is
    not. *)
Fixpoint track (live : list object_url) (l : list effect) : option (list object_url) :=
  match l with
  | [] => Some live
  | CreateObjectURL u _ :: r =>
      if existsb (Nat.eqb u) live then None else track (u :: live) r
  | RevokeObjectURL u :: r =>
      if existsb (Nat.eqb u) live
      then track (filter (fun v => negb (Nat.eqb u v)) live) r
      else None
  end.

End ImagePreview.

(* ================================================================== *)
(** * The geotagging core *)

(** The error taxonomy of the core. Every failure is a value. *)
Inductive error :=
| InvalidCoordinate
| UnsupportedSourceFormat
| UnsupportedContainer
| DecodeFailure
| MalformedContainer
| EncodingOverflow.

Inductive result (A : Type) :=
| Ok (a : A)
| Err (e : error).
Arguments Ok {A} a.
Arguments Err {A} e.

Definition bind {A B} (r : result A) (k : A -> result B) : result B :=
  match r with
  | Ok a => k a
  | Err e => Err e
  end.

Declare Scope result_scope.
Delimit Scope result_scope with result.
Notation "'do' x <- r ; k" := (bind r (fun x => k))
  (at level 10, x pattern, r at level 100, k at level 200) : result_scope.

(* ------------------------------------------------------------------ *)
(** ** CoordinateCodec *)

Module CoordinateCodec.

Local Open Scope Q_scope.

(** A decimal-degree input. A finite float is a rational number; the
    arithmetic of the codec is taken exact on it. The other float values
    are kept apart. *)
Inductive decimal :=
| Finite (x : Q)
| Infinite (negative : bool)
| NaN.

Inductive axis := lat | lon.

Inductive reference := RefN | RefS | RefE | RefW.

(** Degrees and minutes are whole numbers; seconds is the rational
    [Qnum / Qden], kept as the pair it is written with. *)
Record DMS := mkDMS {
  degrees : Z;
  minutes : Z;
  seconds : Q
}.

(** Modelled from the spec: the fixed denominator of the seconds rational
    (CoordinateCodec of the back end's exif handler), the constant the
    design names: 1,000,000. *)
Definition denominator : positive := 1000000.

(** The largest magnitude of each axis. *)
Definition limit (a : axis) : Q :=
  match a with lat => 90 | lon => 180 end.

Definition in_range (x : Q) (a : axis) : bool :=
  Qle_bool (Qabs x) (limit a).

Definition hemisphere (x : Q) (a : axis) : reference :=
  match a with
  | lat => if Qle_bool 0 x then RefN else RefS
  | lon => if Qle_bool 0 x then RefE else RefW
  end.

(** Rounding to the nearest integer. *)
Definition round (x : Q) : Z := Qfloor (x + (1 # 2)).

(** Modelled from the spec: [toDMS] of the CoordinateCodec (section 4.1);
    its implementation is the back end's exif handler. A coordinate
    outside the closed range of its axis, or not finite, is rejected. *)
Definition toDMS (d : decimal) (a : axis) : result (DMS * reference) :=
  match d with
  | Finite x =>
      if in_range x a then
        let magnitude := Qabs x in
        let deg := Qfloor magnitude in
        let minutes_dec := (magnitude - inject_Z deg) * 60 in
        let minutes_int := Qfloor minutes_dec in
        let seconds_dec := (minutes_dec - inject_Z minutes_int) * 60 in
        let sec := Qmake (round (seconds_dec * inject_Z (Zpos denominator)))
                         denominator in
        Ok (mkDMS deg minutes_int sec, hemisphere x a)
      else Err InvalidCoordinate
  | Infinite _ => Err InvalidCoordinate
  | NaN => Err InvalidCoordinate
  end.




End CoordinateCodec.

(* ------------------------------------------------------------------ *)
(** ** Byte buffers and the integers written in them *)

Module Bytes.

Local Open Scope N_scope.

Definition buffer := list byte.

Definition len (b : buffer) : N := N.of_nat (List.length b).

(** The low eight bits of a number. *)
Definition byte_of_N (n : N) : byte :=
  match Byte.of_N (n mod 256) with
  | Some b => b
  | None => x00
  end.

Definition be16 (n : N) : buffer :=
  [byte_of_N (n / 256); byte_of_N n].

Definition be32 (n : N) : buffer :=
  [byte_of_N (n / 16777216); byte_of_N (n / 65536); byte_of_N (n / 256); byte_of_N n].

Definition le32 (n : N) : buffer :=
  [byte_of_N n; byte_of_N (n / 256); byte_of_N (n / 65536); byte_of_N (n / 16777216)].

Definition u16be (a b : byte) : N := Byte.to_N a * 256 + Byte.to_N b.

Definition u32be (a b c d : byte) : N :=
  Byte.to_N a * 16777216 + Byte.to_N b * 65536 + Byte.to_N c * 256 + Byte.to_N d.

Definition u32le (a b c d : byte) : N := u32be d c b a.

(** The first [n] bytes of a buffer and what follows them; nothing when the
    buffer is shorter. *)
Definition take (n : N) (b : buffer) : option (buffer * buffer) :=
  if n <=? len b then Some (firstn (N.to_nat n) b, skipn (N.to_nat n) b)
  else None.

(** The [n] bytes found at offset [off]. *)
Definition slice (off n : N) (b : buffer) : option buffer :=
  if off + n <=? len b then Some (firstn (N.to_nat n) (skipn (N.to_nat off) b))
  else None.

Definition buffer_eqb (a b : buffer) : bool :=
  if list_eq_dec Byte.byte_eq_dec a b then true else false.

Definition text (s : string) : buffer := list_byte_of_string s.

End Bytes.

Import Bytes.

(* ------------------------------------------------------------------ *)
(** ** The metadata directory *)

Module Metadata.

Inductive entry_type := BYTE | ASCII | SHORT | LONG | RATIONAL.

(** The typed payload of an entry. The type and the count of the entry are
    those of its payload. *)
Inductive entry_value :=
| Bytes_ (l : list byte)
| Ascii_ (l : list byte)
| Shorts (l : list N)
| Longs (l : list N)
| Rationals (l : list (N * N)).

Record MetadataEntry := mkEntry {
  tagId : N;
  value : entry_value
}.

Definition type (e : MetadataEntry) : entry_type :=
  match value e with
  | Bytes_ _ => BYTE
  | Ascii_ _ => ASCII
  | Shorts _ => SHORT
  | Longs _ => LONG
  | Rationals _ => RATIONAL
  end.

Definition count (e : MetadataEntry) : N :=
  match value e with
  | Bytes_ l => N.of_nat (List.length l)
  | Ascii_ l => N.of_nat (List.length l)
  | Shorts l => N.of_nat (List.length l)
  | Longs l => N.of_nat (List.length l)
  | Rationals l => N.of_nat (List.length l)
  end.

(** Entries in their on-disk order. *)
Definition MetadataDirectory := list MetadataEntry.

End Metadata.

(* ------------------------------------------------------------------ *)
(** ** MetadataDirectoryBuilder *)

Module MetadataDirectoryBuilder.
Import CoordinateCodec Metadata.

Local Open Scope N_scope.

Definition GPSVersionID : N := 0.
Definition GPSLatitudeRef : N := 1.
Definition GPSLatitude : N := 2.
Definition GPSLongitudeRef : N := 3.
Definition GPSLongitude : N := 4.

Definition reference_text (r : reference) : list byte :=
  match r with
  | RefN => text "N"
  | RefS => text "S"
  | RefE => text "E"
  | RefW => text "W"
  end ++ [x00].

Definition rationals_of (d : DMS) : list (N * N) :=
  [ (Z.to_N (degrees d), 1);
    (Z.to_N (minutes d), 1);
    (Z.to_N (Qnum (seconds d)), Npos (Qden (seconds d))) ].

(** Modelled from the spec: [buildGpsDirectory] (section 4.2), whose
    implementation is the back end's exif handler. The five tags of the
    GPS Info directory, in ascending order of tag. *)
Definition buildGpsDirectory (latDMS : DMS) (latRef : reference)
    (lonDMS : DMS) (lonRef : reference) : MetadataDirectory :=
  [ mkEntry GPSVersionID (Bytes_ [x02; x03; x00; x00]);
    mkEntry GPSLatitudeRef (Ascii_ (reference_text latRef));
    mkEntry GPSLatitude (Rationals (rationals_of latDMS));
    mkEntry GPSLongitudeRef (Ascii_ (reference_text lonRef));
    mkEntry GPSLongitude (Rationals (rationals_of lonDMS)) ].

End MetadataDirectoryBuilder.

(* ------------------------------------------------------------------ *)
(** ** The TIFF block that carries the directory *)

Module Tiff.
Import Metadata.

Local Open Scope N_scope.

Definition type_code (t : entry_type) : N :=
  match t with
  | BYTE => 1 | ASCII => 2 | SHORT => 3 | LONG => 4 | RATIONAL => 5
  end.

Definition type_of_code (c : N) : option entry_type :=
  match c with
  | 1 => Some BYTE | 2 => Some ASCII | 3 => Some SHORT
  | 4 => Some LONG | 5 => Some RATIONAL
  | _ => None
  end.

Definition width (t : entry_type) : N :=
  match t with
  | BYTE => 1 | ASCII => 1 | SHORT => 2 | LONG => 4 | RATIONAL => 8
  end.

Definition encode_rational (r : N * N) : buffer :=
  be32 (fst r) ++ be32 (snd r).

Definition encode_value (v : entry_value) : buffer :=
  match v with
  | Bytes_ l => l
  | Ascii_ l => l
  | Shorts l => List.concat (map be16 l)
  | Longs l => List.concat (map be32 l)
  | Rationals l => List.concat (map encode_rational l)
  end.

(** Every number of the payload fits the width of its type. *)
Definition value_fits (v : entry_value) : bool :=
  match v with
  | Bytes_ _ => true
  | Ascii_ _ => true
  | Shorts l => forallb (fun n => n <? 65536) l
  | Longs l => forallb (fun n => n <? 4294967296) l
  | Rationals l =>
      forallb (fun r => (fst r <? 4294967296) && (snd r <? 4294967296)) l
  end.

Fixpoint decode_shorts (b : buffer) : option (list N) :=
  match b with
  | [] => Some []
  | a0 :: a1 :: r => option_map (cons (u16be a0 a1)) (decode_shorts r)
  | _ => None
  end.

Fixpoint decode_longs (b : buffer) : option (list N) :=
  match b with
  | [] => Some []
  | a0 :: a1 :: a2 :: a3 :: r =>
      option_map (cons (u32be a0 a1 a2 a3)) (decode_longs r)
  | _ => None
  end.

Fixpoint decode_rationals (b : buffer) : option (list (N * N)) :=
  match b with
  | [] => Some []
  | a0 :: a1 :: a2 :: a3 :: b0 :: b1 :: b2 :: b3 :: r =>
      option_map (cons (u32be a0 a1 a2 a3, u32be b0 b1 b2 b3))
                 (decode_rationals r)
  | _ => None
  end.

Definition decode_value (t : entry_type) (payload : buffer) : option entry_value :=
  match t with
  | BYTE => Some (Bytes_ payload)
  | ASCII => Some (Ascii_ payload)
  | SHORT => option_map Shorts (decode_shorts payload)
  | LONG => option_map Longs (decode_longs payload)
  | RATIONAL => option_map Rationals (decode_rationals payload)
  end.

(** Byte-order mark (big-endian), the number 42, the offset of IFD0. *)
Definition header : buffer := text "MM" ++ be16 42 ++ be32 8.

Definition GPSInfo : N := 34853.

(** IFD0 sits at offset 8 and holds one entry, the pointer to the GPS
    directory, which follows it at once. *)
Definition gps_offset : N := 26.

Definition ifd0 : buffer :=
  be16 1 ++ (be16 GPSInfo ++ be16 (type_code LONG) ++ be32 1 ++ be32 gps_offset)
  ++ be32 0.

(** Where the payloads too long for the four-byte value field go: after the
    GPS directory of [n] entries. *)
Definition data_offset (n : N) : N := gps_offset + 2 + 12 * n + 4.

Definition pad4 (p : buffer) : buffer := firstn 4 (p ++ [x00; x00; x00; x00]).

(** Offsets into the block are even: a payload of odd length is followed by
    one zero byte. *)
Definition even_pad (p : buffer) : buffer :=
  if N.even (len p) then [] else [x00].

(** Modelled from the spec: the layout of a directory (section 4.3): its
    twelve-byte entries and the data area they point into, the next free
    offset of that area being [off]. *)
Fixpoint layout (off : N) (es : list MetadataEntry) : buffer * buffer :=
  match es with
  | [] => ([], [])
  | e :: r =>
      let p := encode_value (value e) in
      let head := be16 (tagId e) ++ be16 (type_code (type e)) ++ be32 (count e) in
      if len p <=? 4 then
        let '(ents, data) := layout off r in
        (head ++ pad4 p ++ ents, data)
      else
        let q := p ++ even_pad p in
        let '(ents, data) := layout (off + len q) r in
        (head ++ be32 off ++ ents, q ++ data)
  end.

Definition entry_fits (e : MetadataEntry) : bool :=
  (tagId e <? 65536) && value_fits (value e).

Definition block (d : MetadataDirectory) : buffer :=
  let n := N.of_nat (List.length d) in
  let '(ents, data) := layout (data_offset n) d in
  header ++ ifd0 ++ be16 n ++ ents ++ be32 0 ++ data.

(** Modelled from the spec: the serialization of the directory as a
    minimal TIFF block (section 4.3, JPEG strategy), with the overflow
    rule of section 7: a number that does not fit its field is an error,
    never truncated. *)
Definition serialize (d : MetadataDirectory) : result buffer :=
  if forallb entry_fits d
     && (N.of_nat (List.length d) <? 65536)
     && (len (block d) <? 4294967296)
  then Ok (block d)
  else Err EncodingOverflow.

(** One twelve-byte entry, read against the whole block. *)
Definition parse_entry (blk : buffer) (raw : buffer) : option MetadataEntry :=
  match raw with
  | [t0; t1; y0; y1; c0; c1; c2; c3; v0; v1; v2; v3] =>
      match type_of_code (u16be y0 y1) with
      | None => None
      | Some t =>
          let size := u32be c0 c1 c2 c3 * width t in
          let payload :=
            if size <=? 4 then
              Some (firstn (N.to_nat size) [v0; v1; v2; v3])
            else slice (u32be v0 v1 v2 v3) size blk in
          match payload with
          | None => None
          | Some p =>
              option_map (mkEntry (u16be t0 t1)) (decode_value t p)
          end
      end
  | _ => None
  end.

Fixpoint parse_entries (blk : buffer) (n : nat) (raw : buffer)
  : option (list MetadataEntry) :=
  match n with
  | O => Some []
  | S m =>
      match take 12 raw with
      | None => None
      | Some (first, rest) =>
          match parse_entry blk first, parse_entries blk m rest with
          | Some e, Some es => Some (e :: es)
          | _, _ => None
          end
      end
  end.

(** The directory found at offset [off]: its number of entries and their
    raw bytes. *)
Definition read_ifd (blk : buffer) (off : N) : option (nat * buffer) :=
  match slice off 2 blk with
  | Some [n0; n1] =>
      let n := u16be n0 n1 in
      option_map (fun raw => (N.to_nat n, raw)) (slice (off + 2) (12 * n) blk)
  | _ => None
  end.

(** The offset the GPS pointer of IFD0 holds. *)
Fixpoint find_gps_pointer (n : nat) (raw : buffer) : option N :=
  match n with
  | O => None
  | S m =>
      match raw with
      | t0 :: t1 :: y0 :: y1 :: c0 :: c1 :: c2 :: c3 :: v0 :: v1 :: v2 :: v3 :: rest =>
          if (u16be t0 t1 =? GPSInfo) && (u16be y0 y1 =? type_code LONG)
             && (u32be c0 c1 c2 c3 =? 1)
          then Some (u32be v0 v1 v2 v3)
          else find_gps_pointer m rest
      | _ => None
      end
  end.

(** Modelled from the spec: the reading of the TIFF block, the reverse of
    [serialize], which [extract] relies on (section 9). *)
Definition parse (blk : buffer) : result MetadataDirectory :=
  match blk with
  | m0 :: m1 :: f0 :: f1 :: o0 :: o1 :: o2 :: o3 :: _ =>
      if buffer_eqb [m0; m1; f0; f1] (text "MM" ++ be16 42) then
        match read_ifd blk (u32be o0 o1 o2 o3) with
        | None => Err MalformedContainer
        | Some (n0, raw0) =>
            match find_gps_pointer n0 raw0 with
            | None => Err MalformedContainer
            | Some gps =>
                match read_ifd blk gps with
                | None => Err MalformedContainer
                | Some (n, raw) =>
                    match parse_entries blk n raw with
                    | None => Err MalformedContainer
                    | Some d => Ok d
                    end
                end
            end
        end
      else Err MalformedContainer
  | _ => Err MalformedContainer
  end.

End Tiff.

(* ------------------------------------------------------------------ *)
(** ** ContainerEmbedder *)

Inductive ContainerKind := JPEG | PNG | WEBP.

(** [b] begins with the bytes [p]. *)
Fixpoint starts_with (p b : buffer) : bool :=
  match p with
  | [] => true
  | x :: p' =>
      match b with
      | [] => false
      | y :: b' => Byte.eqb x y && starts_with p' b'
      end
  end.

(** *** The JPEG strategy *)

Module Jpeg.
Import Metadata.

Local Open Scope N_scope.
Local Open Scope result_scope.

Definition SOI : buffer := [xff; xd8].
Definition APP1 : byte := xe1.
Definition SOS : byte := xda.
Definition EOI : byte := xd9.

(** The EXIF identifier and the NUL that follows it. *)
Definition exif_identifier : buffer := text "Exif" ++ [x00].
Definition exif_prefix : buffer := exif_identifier ++ [x00].

(** A marker segment: the marker byte after 0xFF and the payload the
    length field covers. *)
Record segment := mkSegment {
  marker : byte;
  payload : buffer
}.

(** The length field counts its own two bytes. *)
Definition segment_bytes (s : segment) : buffer :=
  [xff; marker s] ++ be16 (2 + len (payload s)) ++ payload s.

Definition segments_bytes (l : list segment) : buffer :=
  List.concat (map segment_bytes l).

(** An APP1 segment whose payload begins with the EXIF identifier. *)
Definition is_exif (s : segment) : bool :=
  Byte.eqb (marker s) APP1 && starts_with exif_identifier (payload s).

(** Modelled from the spec: the scan of the marker segments (section 4.3,
    JPEG strategy): the segments up to the start of scan (or the end of
    image), and the bytes from that marker on, which are left alone. *)
Fixpoint scan (fuel : nat) (b : buffer) : result (list segment * buffer) :=
  match fuel with
  | O => Err MalformedContainer
  | S fuel' =>
      match b with
      | ff :: m :: rest =>
          if negb (Byte.eqb ff xff) then Err MalformedContainer
          else if Byte.eqb m SOS || Byte.eqb m EOI then Ok ([], b)
          else
            match rest with
            | l0 :: l1 :: body =>
                let L := u16be l0 l1 in
                if L <? 2 then Err MalformedContainer
                else
                  match take (L - 2) body with
                  | None => Err MalformedContainer
                  | Some (p, after) =>
                      do (segs, tail) <- scan fuel' after;
                      Ok (mkSegment m p :: segs, tail)
                  end
            | _ => Err MalformedContainer
            end
      | _ => Err MalformedContainer
      end
  end.

(** Modelled from the spec: locating the start-of-image marker (section
    4.3), then the segments and the scan data that follow it. *)
Definition parse (image : buffer) : result (list segment * buffer) :=
  match image with
  | a :: b :: rest =>
      if buffer_eqb [a; b] SOI then scan (List.length rest) rest
      else Err UnsupportedContainer
  | _ => Err UnsupportedContainer
  end.

(** The APP1 segment that carries a TIFF block. *)
Definition fresh (blk : buffer) : segment :=
  mkSegment APP1 (exif_prefix ++ blk).

(** The segments that stay: every one but the EXIF ones. *)
Definition kept (segs : list segment) : list segment :=
  filter (fun s => negb (is_exif s)) segs.

(** Modelled from the spec: the JPEG strategy of [embed] (section 4.3);
    its implementation is the back end's exif handler. *)
Definition embed (image : buffer) (d : MetadataDirectory) : result buffer :=
  do (segs, tail) <- parse image;
  do blk <- Tiff.serialize d;
  let app1 := fresh blk in
  if 2 + len (payload app1) <? 65536 then
    Ok (SOI ++ segment_bytes app1 ++ segments_bytes (kept segs) ++ tail)
  else Err EncodingOverflow.

(** Modelled from the spec: the reading side of the JPEG strategy
    (section 9): the TIFF blocks of the EXIF segments of an image. *)
Definition metadata_blocks (image : buffer) : result (list buffer) :=
  do (segs, tail) <- parse image;
  Ok (map (fun s => skipn (List.length exif_prefix) (payload s))
          (filter is_exif segs)).

(** What [scan] accepts: a segment whose length fits its field and whose
    marker does not end the headers, and scan data that begins with the
    marker that does. *)
Definition segment_ok (s : segment) : bool :=
  negb (Byte.eqb (marker s) SOS || Byte.eqb (marker s) EOI)
  && (2 + len (payload s) <? 65536).

Definition scan_start (tail : buffer) : bool :=
  match tail with
  | ff :: m :: _ => Byte.eqb ff xff && (Byte.eqb m SOS || Byte.eqb m EOI)
  | _ => false
  end.

End Jpeg.

(** *** The PNG strategy *)

Module Png.
Import Metadata.

Local Open Scope N_scope.
Local Open Scope result_scope.

Definition signature : buffer :=
  [x89; x50; x4e; x47; x0d; x0a; x1a; x0a].

Definition IHDR : buffer := text "IHDR".
Definition eXIf : buffer := text "eXIf".

Definition polynomial : N := 3988292384. (* 0xEDB88320 *)

Definition crc_shift (c : N) : N :=
  if N.odd c then N.lxor (c / 2) polynomial else c / 2.

Definition crc_update (c : N) (b : byte) : N :=
  let c0 := N.lxor c (Byte.to_N b) in
  crc_shift (crc_shift (crc_shift (crc_shift
    (crc_shift (crc_shift (crc_shift (crc_shift c0))))))).

(** Modelled from the spec: the CRC-32 of PNG, polynomial 0xEDB88320
    (section 4.3, PNG strategy). *)
Definition crc32 (b : buffer) : N :=
  N.lxor (fold_left crc_update b 4294967295) 4294967295.

Record chunk := mkChunk {
  ctype : buffer;
  data : buffer;
  crc : buffer
}.

Definition chunk_bytes (c : chunk) : buffer :=
  be32 (len (data c)) ++ ctype c ++ data c ++ crc c.

Definition chunks_bytes (l : list chunk) : buffer :=
  List.concat (map chunk_bytes l).

(** The checksum covers the chunk type and the chunk data. *)
Definition checksum (ty d : buffer) : buffer := be32 (crc32 (ty ++ d)).

Definition is_exif (c : chunk) : bool := buffer_eqb (ctype c) eXIf.

Fixpoint parse_chunks (fuel : nat) (b : buffer) : result (list chunk) :=
  match b with
  | [] => Ok []
  | l0 :: l1 :: l2 :: l3 :: t0 :: t1 :: t2 :: t3 :: rest =>
      match fuel with
      | O => Err MalformedContainer
      | S fuel' =>
          match take (u32be l0 l1 l2 l3) rest with
          | None => Err MalformedContainer
          | Some (d, after) =>
              match take 4 after with
              | None => Err MalformedContainer
              | Some (c, after') =>
                  do cs <- parse_chunks fuel' after';
                  Ok (mkChunk [t0; t1; t2; t3] d c :: cs)
              end
          end
      end
  | _ => Err MalformedContainer
  end.

(** Modelled from the spec: the chunks of a PNG image (section 4.3); the
    first one is the image header. *)
Definition parse (image : buffer) : result (chunk * list chunk) :=
  match take 8 image with
  | Some (sig, body) =>
      if buffer_eqb sig signature then
        do cs <- parse_chunks (List.length body) body;
        match cs with
        | h :: others =>
            if buffer_eqb (ctype h) IHDR then Ok (h, others)
            else Err MalformedContainer
        | [] => Err MalformedContainer
        end
      else Err UnsupportedContainer
  | None => Err UnsupportedContainer
  end.

(** The chunk that carries a TIFF block. *)
Definition fresh (blk : buffer) : chunk :=
  mkChunk eXIf blk (checksum eXIf blk).

(** The chunks that stay: every one but the metadata ones. *)
Definition kept (cs : list chunk) : list chunk :=
  filter (fun c => negb (is_exif c)) cs.

(** Modelled from the spec: the PNG strategy of [embed] (section 4.3);
    its implementation is the back end's exif handler. *)
Definition embed (image : buffer) (d : MetadataDirectory) : result buffer :=
  do (h, others) <- parse image;
  do blk <- Tiff.serialize d;
  if len blk <? 4294967296 then
    Ok (signature ++ chunks_bytes (h :: fresh blk :: kept others))
  else Err EncodingOverflow.

(** Modelled from the spec: the reading side of the PNG strategy (section
    9): the data of the metadata chunks, whose checksum must hold. *)
Definition metadata_blocks (image : buffer) : result (list buffer) :=
  do (h, others) <- parse image;
  let found := filter is_exif (h :: others) in
  if forallb (fun c => buffer_eqb (crc c) (checksum (ctype c) (data c))) found
  then Ok (map data found)
  else Err MalformedContainer.

(** What [parse_chunks] accepts. *)
Definition chunk_ok (c : chunk) : bool :=
  (len (ctype c) =? 4) && (len (crc c) =? 4) && (len (data c) <? 4294967296).

End Png.

(** *** The WEBP strategy *)

Module Webp.
Import Metadata.

Local Open Scope N_scope.
Local Open Scope result_scope.

Definition RIFF : buffer := text "RIFF".
Definition WEBP_ : buffer := text "WEBP".
Definition EXIF : buffer := text "EXIF".

(** A sub-chunk; [padding] is the byte that follows a payload of odd
    length, and nothing otherwise. *)
Record chunk := mkChunk {
  tag : buffer;
  payload : buffer;
  padding : buffer
}.

Definition chunk_bytes (c : chunk) : buffer :=
  tag c ++ le32 (len (payload c)) ++ payload c ++ padding c.

Definition chunks_bytes (l : list chunk) : buffer :=
  List.concat (map chunk_bytes l).

Definition pad_for (p : buffer) : buffer :=
  if N.odd (len p) then [x00] else [].

Definition is_exif (c : chunk) : bool := buffer_eqb (tag c) EXIF.

Fixpoint parse_chunks (fuel : nat) (b : buffer) : result (list chunk) :=
  match b with
  | [] => Ok []
  | t0 :: t1 :: t2 :: t3 :: l0 :: l1 :: l2 :: l3 :: rest =>
      match fuel with
      | O => Err MalformedContainer
      | S fuel' =>
          let L := u32le l0 l1 l2 l3 in
          match take L rest with
          | None => Err MalformedContainer
          | Some (p, after) =>
              match take (if N.odd L then 1 else 0) after with
              | None => Err MalformedContainer
              | Some (pad, after') =>
                  do cs <- parse_chunks fuel' after';
                  Ok (mkChunk [t0; t1; t2; t3] p pad :: cs)
              end
          end
      end
  | _ => Err MalformedContainer
  end.

(** Modelled from the spec: the RIFF structure of a WEBP file (section
    4.3): its sub-chunks, when the size field matches the file. *)
Definition parse (image : buffer) : result (list chunk) :=
  match image with
  | r0 :: r1 :: r2 :: r3 :: s0 :: s1 :: s2 :: s3 :: w0 :: w1 :: w2 :: w3 :: body =>
      if buffer_eqb [r0; r1; r2; r3] RIFF && buffer_eqb [w0; w1; w2; w3] WEBP_
      then
        if u32le s0 s1 s2 s3 =? 4 + len body
        then parse_chunks (List.length body) body
        else Err MalformedContainer
      else Err UnsupportedContainer
  | _ => Err UnsupportedContainer
  end.

(** The sub-chunk that carries a TIFF block. *)
Definition fresh (blk : buffer) : chunk :=
  mkChunk EXIF blk (pad_for blk).

(** The sub-chunks that stay: every one but the metadata ones. *)
Definition kept (cs : list chunk) : list chunk :=
  filter (fun c => negb (is_exif c)) cs.

(** Modelled from the spec: the WEBP strategy of [embed] (section 4.3);
    its implementation is the back end's image processor. *)
Definition embed (image : buffer) (d : MetadataDirectory) : result buffer :=
  do cs <- parse image;
  do blk <- Tiff.serialize d;
  let body := chunks_bytes (kept cs ++ [fresh blk]) in
  if (len blk <? 4294967296) && (4 + len body <? 4294967296) then
    Ok (RIFF ++ le32 (4 + len body) ++ WEBP_ ++ body)
  else Err EncodingOverflow.

(** Modelled from the spec: the reading side of the WEBP strategy
    (section 9): the payloads of the metadata sub-chunks. *)
Definition metadata_blocks (image : buffer) : result (list buffer) :=
  do cs <- parse image;
  Ok (map payload (filter is_exif cs)).

(** What [parse_chunks] accepts. *)
Definition chunk_ok (c : chunk) : bool :=
  (len (tag c) =? 4) && (len (payload c) <? 4294967296)
  && (len (padding c) =? (if N.odd (len (payload c)) then 1 else 0)).

End Webp.

(** *** The strategies behind one contract *)

Module ContainerEmbedder.
Import Metadata.

Local Open Scope result_scope.

(** Modelled from the spec: [embed] of the ContainerEmbedder (section
    4.3), one strategy per container kind, selected by a match. *)
Definition embed (kind : ContainerKind) (image : buffer) (d : MetadataDirectory)
  : result buffer :=
  match kind with
  | JPEG => Jpeg.embed image d
  | PNG => Png.embed image d
  | WEBP => Webp.embed image d
  end.

(** The metadata blocks an image of a kind carries. *)
Definition metadata_blocks (kind : ContainerKind) (image : buffer)
  : result (list buffer) :=
  match kind with
  | JPEG => Jpeg.metadata_blocks image
  | PNG => Png.metadata_blocks image
  | WEBP => Webp.metadata_blocks image
  end.

(** Modelled from the spec: [extract], the other half of the strategy
    contract (section 9): the directory of the first metadata block, or
    nothing when the image carries none. *)
Definition extract (kind : ContainerKind) (image : buffer)
  : result (option MetadataDirectory) :=
  do blocks <- metadata_blocks kind image;
  match blocks with
  | [] => Ok None
  | blk :: _ => do d <- Tiff.parse blk; Ok (Some d)
  end.

End ContainerEmbedder.

(* ------------------------------------------------------------------ *)
(** ** Length fields, read from the raw bytes *)

(** What it is for a run of raw bytes to be one unit of a container whose
    length field tells the measured length of its payload. *)
Module Framing.

Local Open Scope N_scope.

(** 0xFF, marker, two-byte big-endian length, payload: the length counts
    itself and the payload. *)
Definition jpeg_segment (raw : buffer) : Prop :=
  exists m l0 l1 p,
    raw = [xff; m; l0; l1] ++ p /\ u16be l0 l1 = 2 + len p.

(** Four-byte big-endian length, type, data, checksum: the length counts
    the data. *)
Definition png_chunk (raw : buffer) : Prop :=
  exists l0 l1 l2 l3 ty d c,
    raw = [l0; l1; l2; l3] ++ ty ++ d ++ c /\
    len ty = 4 /\ len c = 4 /\ u32be l0 l1 l2 l3 = len d.

(** Tag, four-byte little-endian length, payload, one padding byte when
    the length is odd: the length counts the payload. *)
Definition riff_chunk (raw : buffer) : Prop :=
  exists t l0 l1 l2 l3 p pad,
    raw = t ++ [l0; l1; l2; l3] ++ p ++ pad /\
    len t = 4 /\ u32le l0 l1 l2 l3 = len p /\
    len pad = (if N.odd (len p) then 1 else 0).

(** The bytes from the start of scan on: no segment header is read past
    this point. *)
Definition jpeg_scan_data (tail : buffer) : Prop :=
  exists m rest, tail = xff :: m :: rest /\ (m = Jpeg.SOS \/ m = Jpeg.EOI).

End Framing.

(* ------------------------------------------------------------------ *)
(** ** GeotagPipeline *)

Module GeotagPipeline.
Import CoordinateCodec Metadata MetadataDirectoryBuilder.

Local Open Scope result_scope.

Record Coordinate := mkCoordinate {
  latitude : decimal;
  longitude : decimal
}.

(** The container a target format is written in. *)
Definition target_kind (f : Format) : ContainerKind :=
  match f with
  | jpeg => JPEG
  | png => PNG
  | webp => WEBP
  end.

(** Modelled from the spec: the detection of the source container from
    its byte signature (section 4.5, step 2). *)
Definition detect (image : buffer) : result ContainerKind :=
  if starts_with Jpeg.SOI image then Ok JPEG
  else if starts_with Png.signature image then Ok PNG
  else if starts_with Webp.RIFF image
          && starts_with Webp.WEBP_ (skipn 8 image) then Ok WEBP
  else Err UnsupportedSourceFormat.

(** Modelled from the spec: the validation of the coordinate (section 4.5,
    step 1), the range check of [toDMS] on both axes. *)
Definition validate (c : Coordinate) : result unit :=
  do _ <- toDMS (latitude c) lat;
  do _ <- toDMS (longitude c) lon;
  Ok tt.

Section Run.

(** The Transcoder (section 4.4): the pixel codec is an external library,
    known here by its contract only. *)
Variable transcode :
  buffer -> ContainerKind -> Format -> result (buffer * ContainerKind).

(** Modelled from the spec: [run] of the GeotagPipeline (section 4.5);
    its implementation is the back end's request handler. *)
Definition run (image : buffer) (c : Coordinate) (targetFormat : Format)
  : result buffer :=
  do _ <- validate c;
  do kind <- detect image;
  do (pixels, targetKind) <- transcode image kind targetFormat;
  do (latDMS, latRef) <- toDMS (latitude c) lat;
  do (lonDMS, lonRef) <- toDMS (longitude c) lon;
  let directory := buildGpsDirectory latDMS latRef lonDMS lonRef in
  ContainerEmbedder.embed targetKind pixels directory.

End Run.

End GeotagPipeline.

(* ------------------------------------------------------------------ *)
(** ** Sample inputs *)

Module Samples.
Import CoordinateCodec Metadata MetadataDirectoryBuilder.

(** The Eiffel Tower and the Sydney Opera House. *)
Definition paris : MetadataDirectory :=
  buildGpsDirectory (mkDMS 48 51 (30240000 # 1000000)) RefN
                    (mkDMS 2 17 (40200000 # 1000000)) RefE.

Definition sydney : MetadataDirectory :=
  buildGpsDirectory (mkDMS 33 51 (24480000 # 1000000)) RefS
                    (mkDMS 151 12 (55080000 # 1000000)) RefE.

(** A JPEG with an APP0 segment before its scan. *)
Definition small_jpeg : buffer :=
  [xff; xd8; xff; xe0; x00; x04; x4a; x46;
   xff; xda; x00; x02; x11; x22; xff; xd9].

(** A PNG made of a header, one data chunk and the end chunk. *)
Definition small_png : buffer :=
  Png.signature
  ++ be32 1 ++ text "IHDR" ++ [x07] ++ Png.checksum (text "IHDR") [x07]
  ++ be32 2 ++ text "IDAT" ++ [x01; x02] ++ Png.checksum (text "IDAT") [x01; x02]
  ++ be32 0 ++ text "IEND" ++ Png.checksum (text "IEND") [].

(** A WEBP with one image chunk of odd length. *)
Definition small_webp : buffer :=
  text "RIFF" ++ le32 16 ++ text "WEBP"
  ++ text "VP8 " ++ le32 3 ++ [x01; x02; x03] ++ [x00].

Definition small (kind : ContainerKind) : buffer :=
  match kind with
  | JPEG => small_jpeg
  | PNG => small_png
  | WEBP => small_webp
  end.

(** The sample of a kind, carrying the Paris directory. *)
Definition tagged (kind : ContainerKind) : buffer :=
  match ContainerEmbedder.embed kind (small kind) paris with
  | Ok b => b
  | Err _ => []
  end.

(** A codec stand-in that answers with the sample of the target kind. *)
Definition sample_transcode (source : buffer) (kind : ContainerKind)
    (target : Format) : result (buffer * ContainerKind) :=
  Ok (small (GeotagPipeline.target_kind target), GeotagPipeline.target_kind target).

(** What replacing the Paris directory by the Sydney one gives, on the
    sample of a kind. *)
Definition replaced (kind : ContainerKind) : Prop :=
  exists out,
    ContainerEmbedder.extract kind (tagged kind) = Ok (Some paris) /\
    ContainerEmbedder.embed kind (tagged kind) sydney = Ok out /\
    ContainerEmbedder.extract kind out = Ok (Some sydney) /\
    ContainerEmbedder.embed kind (small kind) sydney = Ok out.

(** Files a user may select or drop. *)
Definition sample_file : File :=
  mkFile (lit "holiday.photo.png") (lit "image/png") [x89; x50; x4e; x47].

Definition second_image : File :=
  mkFile (lit "b.webp") (lit "image/webp") [x52; x49].

Definition notes_file : File :=
  mkFile (lit "notes.txt") (lit "text/plain") [x68; x69].

End Samples.
(* ================================================================== *)
(** * Properties of the front end *)

Module JSFacts.

Lemma trimStart_all_whitespace (s : jsstring) :
  forallb is_whitespace s = true -> trimStart s = [].
Proof.
  induction s as [|c r IH]; simpl; [reflexivity|].
  intros H. apply andb_prop in H as [Hc Hr]. rewrite Hc. auto.
Qed.

Lemma trimStart_nil_inv (s : jsstring) :
  trimStart s = [] -> forallb is_whitespace s = true.
Proof.
  induction s as [|c r IH]; simpl; [reflexivity|].
  destruct (is_whitespace c); simpl; [exact IH | discriminate].
Qed.

Lemma trim_all_whitespace (s : jsstring) :
  forallb is_whitespace s = true -> trim s = [].
Proof.
  intros H. unfold trim, trimEnd.
  rewrite (trimStart_all_whitespace s H). reflexivity.
Qed.

Lemma find_none {A} (p : A -> bool) (l : list A) :
  (forall x, In x l -> p x = false) -> find p l = None.
Proof.
  induction l as [|a l IH]; simpl; intros H; [reflexivity|].
  rewrite (H a (or_introl eq_refl)). apply IH. intros x Hx. apply H. now right.
Qed.

Lemma find_first {A} (p : A -> bool) (pre post : list A) (x : A) :
  (forall y, In y pre -> p y = false) -> p x = true ->
  find p (pre ++ x :: post) = Some x.
Proof.
  induction pre as [|a pre IH]; simpl; intros Hpre Hx.
  - now rewrite Hx.
  - rewrite (Hpre a (or_introl eq_refl)). apply IH; auto.
Qed.

Lemma startsWith_prefix (s p : jsstring) :
  startsWith s p = true <-> exists rest, s = p ++ rest.
Proof.
  revert s. induction p as [|a p IH]; intros s; simpl.
  - split; [intros _; now exists s | reflexivity].
  - destruct s as [|b s].
    + split; [discriminate | intros [rest H]; discriminate].
    + split.
      * intros H. apply andb_prop in H as [Hab Hs].
        apply N.eqb_eq in Hab. subst b.
        apply IH in Hs as [rest ->]. now exists rest.
      * intros [rest H]. injection H as -> ->.
        rewrite N.eqb_refl. simpl. apply IH. now exists rest.
Qed.

(** The first piece of [split] is the text before the first separator. *)
Lemma split_first_piece (sep : code_unit) (s : jsstring) :
  exists base rest,
    nth_error (split sep s) 0 = Some base /\
    s = base ++ rest /\ ~ In sep base /\
    (rest = [] \/ hd_error rest = Some sep).
Proof.
  induction s as [|c r IH]; simpl.
  - exists [], []. repeat split; auto.
  - destruct (N.eqb_spec c sep) as [->|Hne].
    + exists [], (sep :: r). simpl. repeat split; auto.
    + destruct IH as (base & rest & Hnth & Hs & Hno & Hrest).
      destruct (split sep r) as [|h t]; [discriminate|].
      simpl in Hnth. injection Hnth as ->.
      exists (c :: base), rest. simpl. repeat split; auto.
      * now rewrite Hs.
      * intros [H|H]; [now apply Hne | now apply Hno].
Qed.

End JSFacts.

Module ImageUploaderFacts.
Import ImageUploader.

(** C10. On a drop, [handleDrop] hands to [onImageSelected] exactly the
    first dropped file whose MIME type begins with [image/], once, and the
    page's selection becomes that file; when no dropped file has such a
    type, [onImageSelected] is not called and the page state is the same. *)
Theorem handleDrop_selects_first_image (files : list File) (s : Home.state) :
  (forall pre f post,
      files = pre ++ f :: post ->
      (forall g, In g pre -> ~ exists rest, type g = lit "image/" ++ rest) ->
      (exists rest, type f = lit "image/" ++ rest) ->
      handleDrop files = mkOutcome false [f] /\
      fst (Home.step s (Home.DropFiles files)) = Home.setSelectedImage (Some f) s)
  /\
  ((forall g, In g files -> ~ exists rest, type g = lit "image/" ++ rest) ->
      onImageSelected_calls (handleDrop files) = [] /\
      Home.step s (Home.DropFiles files) = (s, [])).
Proof.
  assert (Hno : forall g, (~ exists rest, type g = lit "image/" ++ rest) ->
                          is_image g = false).
  { intros g Hg. unfold is_image.
    destruct (startsWith (type g) (lit "image/")) eqn:E; [|reflexivity].
    exfalso. apply Hg. now apply JSFacts.startsWith_prefix. }
  split.
  - intros pre f post -> Hpre Hf.
    assert (E : find is_image (pre ++ f :: post) = Some f).
    { apply JSFacts.find_first.
      - intros y Hy. apply Hno. now apply Hpre.
      - unfold is_image. now apply JSFacts.startsWith_prefix. }
    unfold Home.step, handleDrop. rewrite E. simpl. split; reflexivity.
  - intros Hall.
    assert (E : find is_image files = None).
    { apply JSFacts.find_none. intros x Hx. apply Hno. now apply Hall. }
    unfold Home.step, handleDrop. rewrite E. simpl. split; reflexivity.
Qed.

Lemma handleDrop_selects_first_image_witness :
  handleDrop [Samples.notes_file; Samples.sample_file; Samples.second_image]
    = mkOutcome false [Samples.sample_file]
  /\ fst (Home.step Home.initial
            (Home.DropFiles [Samples.notes_file; Samples.sample_file;
                             Samples.second_image]))
     = Home.setSelectedImage (Some Samples.sample_file) Home.initial
  /\ onImageSelected_calls (handleDrop [Samples.notes_file]) = []
  /\ Home.step Home.initial (Home.DropFiles [Samples.notes_file])
     = (Home.initial, []).
Proof.
  destruct (handleDrop_selects_first_image
              [Samples.notes_file; Samples.sample_file; Samples.second_image]
              Home.initial) as [Hfirst _].
  destruct (handleDrop_selects_first_image [Samples.notes_file] Home.initial)
    as [_ Hnone].
  assert (Hnotes : ~ exists rest,
             type Samples.notes_file = lit "image/" ++ rest)
    by (intros [rest H]; discriminate).
  destruct (Hfirst [Samples.notes_file] Samples.sample_file
              [Samples.second_image] eq_refl) as [H1 H2].
  - intros g [<-|[]]. exact Hnotes.
  - exists (lit "png"). reflexivity.
  - destruct Hnone as [H3 H4].
    + intros g [<-|[]]. exact Hnotes.
    + auto.
Defined.

End ImageUploaderFacts.

Module HomeFacts.
Import Home.
Import Samples (sample_file, second_image, notes_file).

(** C8. When no image is selected, or the address is empty or made of
    whitespace only, [handleProcess] records the message "Please select an
    image and enter an address" in [error], changes no other component of
    the state, and produces no effect: [api.processImage] is not called.
    The process button is disabled in the same states. *)
Theorem handleProcess_missing_inputs (s : state) (resp : Api.response) :
  selectedImage s = None \/ forallb is_whitespace (address s) = true ->
  handleProcess resp s =
    (mkState (selectedImage s) (address s) (format s) (isProcessing s)
       (processedBlob s)
       (Some (lit "Please select an image and enter an address"))
       (success s),
     [])
  /\ process_disabled s = true.
Proof.
  intros H. unfold handleProcess, process_disabled.
  destruct (selectedImage s) as [image|] eqn:Himg.
  - destruct H as [H|H]; [discriminate|].
    rewrite (JSFacts.trim_all_whitespace _ H). simpl.
    unfold setError. rewrite Himg. split; reflexivity.
  - unfold setError. rewrite Himg. split; reflexivity.
Qed.

Lemma handleProcess_missing_inputs_witness :
  let s := mkState (Some sample_file) (lit "   ") png false None None false in
  handleProcess (Api.Resolved []) s =
    (mkState (Some sample_file) (lit "   ") png false None
       (Some (lit "Please select an image and enter an address")) false, [])
  /\ process_disabled s = true.
Proof.
  intros s.
  apply (handleProcess_missing_inputs s (Api.Resolved [])).
  right. reflexivity.
Defined.

(** C9. After a successful request the download is triggered once, under
    the name made of the selected file's name cut at its first '.', then
    "_gps.", then the chosen format. A name that begins with '.' gives an
    empty base, a name with several dots keeps only what precedes the
    first. *)
Theorem download_name_first_dot (s : state) (image : File) (blob : Blob) :
  selectedImage s = Some image ->
  truthy (trim (address s)) = true ->
  exists base rest,
    name image = base ++ rest /\ ~ In dot base /\
    (rest = [] \/ hd_error rest = Some dot) /\
    (hd_error (name image) = Some dot -> base = []) /\
    snd (handleProcess (Api.Resolved blob) s) =
      [ ProcessImage (Api.mkRequest image (address s) (format s));
        CreateObjectURL blob;
        ClickDownload (base ++ lit "_gps." ++ format_string (format s)) blob;
        RevokeObjectURL blob ].
Proof.
  intros Himg Haddr.
  destruct (JSFacts.split_first_piece dot (name image))
    as (base & rest & Hnth & Hname & Hno & Hrest).
  exists base, rest. repeat split; auto.
  - intros Hhd. destruct base as [|c base]; [reflexivity|].
    rewrite Hname in Hhd. simpl in Hhd. injection Hhd as ->.
    exfalso. apply Hno. now left.
  - unfold handleProcess. rewrite Himg, Haddr. simpl.
    unfold download_name. rewrite Hnth. reflexivity.
Qed.

Lemma download_name_first_dot_witness :
  exists base rest,
    lit "holiday.photo.png" = base ++ rest /\ ~ In dot base /\
    (rest = [] \/ hd_error rest = Some dot) /\
    (hd_error (lit "holiday.photo.png") = Some dot -> base = []) /\
    snd (handleProcess (Api.Resolved [x01])
           (mkState (Some sample_file) (lit "Paris") webp false None None false)) =
      [ ProcessImage (Api.mkRequest sample_file (lit "Paris") webp);
        CreateObjectURL [x01];
        ClickDownload (base ++ lit "_gps." ++ format_string webp) [x01];
        RevokeObjectURL [x01] ].
Proof.
  apply (download_name_first_dot
           (mkState (Some sample_file) (lit "Paris") webp false None None false)
           sample_file [x01]); reflexivity.
Defined.

Example download_name_several_dots :
  download_name sample_file webp = lit "holiday_gps.webp".
Proof. reflexivity. Qed.

Example download_name_leading_dot :
  download_name (mkFile (lit ".hidden.jpg") (lit "image/jpeg") []) jpeg
  = lit "_gps.jpeg".
Proof. reflexivity. Qed.

Example download_name_no_dot :
  download_name (mkFile (lit "scan") (lit "image/png") []) png
  = lit "scan_gps.png".
Proof. reflexivity. Qed.

(** C7. The selector offers exactly the three formats jpeg, png and webp,
    each once and in this order; every value of the format type is one of
    them and has a button; no button selects anything else; and the
    [format] field of every request the client builds is one of the three
    strings "jpeg", "png", "webp". *)
Theorem formats_exactly_three :
  map FormatSelector.value FormatSelector.formats = [jpeg; png; webp]
  /\ (forall f : Format, f = jpeg \/ f = png \/ f = webp)
  /\ (forall f : Format, exists i, FormatSelector.click i = Some f)
  /\ (forall i, FormatSelector.click i = None \/
                exists f, FormatSelector.click i = Some f /\ In f [jpeg; png; webp])
  /\ (forall req : Api.ProcessImageRequest,
        exists v, nth_error (Api.formData req) 2 = Some (lit "format", Api.TextField v)
                  /\ In v [lit "jpeg"; lit "png"; lit "webp"]).
Proof.
  split; [reflexivity|].
  split; [intros []; auto|].
  split.
  { intros []; [exists 0%nat | exists 1%nat | exists 2%nat]; reflexivity. }
  split.
  { intros i. destruct (FormatSelector.click i) as [f|]; [right|left; reflexivity].
    exists f. split; [reflexivity|]. destruct f; simpl; auto. }
  intros req. exists (format_string (Api.format req)).
  split; [reflexivity|].
  destruct (Api.format req); simpl; auto.
Qed.

End HomeFacts.

(* ================================================================== *)
(** * More properties of the front end *)

Module DropZoneFacts.
Import ImageUploader DropZone.

Lemma find_some_holds {A} (p : A -> bool) (l : list A) (x : A) :
  find p l = Some x -> p x = true.
Proof.
  induction l as [|a l IH]; simpl; [discriminate|].
  destruct (p a) eqn:E; [|exact IH].
  intros H. injection H as <-. exact E.
Qed.

Lemma handleDrop_calls_images (files : list File) :
  Forall (fun f => is_image f = true) (onImageSelected_calls (handleDrop files))
  /\ (List.length (onImageSelected_calls (handleDrop files)) <= 1)%nat.
Proof.
  unfold handleDrop. destruct (find is_image files) as [f|] eqn:E; simpl.
  - split; [|apply Nat.le_refl]. constructor; [|constructor].
    now apply find_some_holds in E.
  - split; [constructor | apply Nat.le_0_l].
Qed.

(** X1. The file input hands over the first file of the list whatever its
    type, and nothing when the list is null or empty; it makes the same
    call as a drop of the same files exactly when the list is empty or its
    first file has an image type. *)
Theorem fileInput_takes_first_of_any_type (files : list File) :
  handleFileInput None = []
  /\ handleFileInput (Some files)
     = match files with [] => [] | f :: _ => [f] end
  /\ (handleFileInput (Some files) = onImageSelected_calls (handleDrop files)
      <-> files = [] \/
          exists f rest tail, files = f :: rest /\ type f = lit "image/" ++ tail).
Proof.
  split; [reflexivity|]. split; [now destruct files|].
  destruct files as [|f rest]; [split; auto|].
  unfold handleDrop. cbn [handleFileInput find].
  destruct (is_image f) eqn:E.
  - split; [|reflexivity]. intros _. right.
    apply JSFacts.startsWith_prefix in E as [tail E]. now exists f, rest, tail.
  - split.
    + destruct (find is_image rest) as [g|] eqn:Eg; cbn; intros H;
        [|discriminate].
      injection H as <-. apply find_some_holds in Eg. congruence.
    + intros [H|(f' & rest' & tail & H & Ht)]; [discriminate|].
      injection H as <- <-.
      assert (is_image f = true)
        by (apply JSFacts.startsWith_prefix; now exists tail).
      congruence.
Qed.

Lemma fileInput_takes_first_of_any_type_witness :
  handleFileInput (Some [Samples.notes_file; Samples.sample_file])
    = [Samples.notes_file]
  /\ handleFileInput (Some [Samples.sample_file; Samples.notes_file])
     = onImageSelected_calls (handleDrop [Samples.sample_file; Samples.notes_file]).
Proof.
  destruct (fileInput_takes_first_of_any_type
              [Samples.notes_file; Samples.sample_file]) as (_ & H1 & _).
  destruct (fileInput_takes_first_of_any_type
              [Samples.sample_file; Samples.notes_file]) as (_ & _ & H2).
  split; [exact H1|]. apply H2. right.
  exists Samples.sample_file, [Samples.notes_file], (lit "png").
  split; reflexivity.
Defined.

(** X2. Whatever the drag events, every file the drop zone hands to
    [onImageSelected] has an image type, and it hands over at most one
    file per drop. *)
Theorem drop_zone_selects_only_images (dragging : bool) (es : list drag_event) :
  Forall (fun f => exists tail, type f = lit "image/" ++ tail)
         (onImageSelected_calls (run dragging es))
  /\ (List.length (onImageSelected_calls (run dragging es))
      <= List.length (filter is_drop es))%nat.
Proof.
  revert dragging. induction es as [|e es IH]; intros dragging.
  - split; [constructor | apply Nat.le_refl].
  - cbn [run onImageSelected_calls].
    destruct (IH (isDragging (handle e))) as [IH1 IH2].
    split.
    + apply Forall_app. split; [|exact IH1].
      destruct e as [| |files]; [constructor | constructor |].
      cbn [handle]. destruct (handleDrop_calls_images files) as [H _].
      eapply Forall_impl; [|exact H].
      intros f Hf. now apply JSFacts.startsWith_prefix.
    + rewrite length_app.
      destruct e as [| |files]; [simpl in *; lia | simpl in *; lia |].
      cbn [handle filter is_drop List.length] in *.
      destruct (handleDrop_calls_images files) as [_ H]. lia.
Qed.

(** X3. After any drag events the zone is highlighted exactly when the last of
    them is a drag-over: a drop or a drag-leave always clears the
    highlight, a drop doing so whether or not it brought an image. *)
Theorem drop_zone_highlight_follows_last_event
    (dragging : bool) (es : list drag_event) (e : drag_event) :
  isDragging (run dragging (es ++ [e]))
  = match e with DragOver => true | DragLeave => false | Drop _ => false end
  /\ isDragging (run dragging []) = dragging.
Proof.
  split; [|reflexivity].
  revert dragging. induction es as [|e0 es IH]; intros dragging.
  - destruct e as [| |files]; try reflexivity.
    cbn. unfold handleDrop. now destruct (find is_image files).
  - cbn [app run isDragging]. apply IH.
Qed.

End DropZoneFacts.

Module FormatButtonsFacts.
Import FormatButtons.

(** X4. For every selected format exactly one button is highlighted, the one
    that selects this format: clicking a button and rendering again
    highlights that button and no other. *)
Theorem one_button_highlighted (f : Format) :
  count_occ bool_dec (highlighted f) true = 1%nat
  /\ exists i, FormatSelector.click i = Some f
               /\ forall j, nth_error (highlighted f) j = Some true <-> j = i.
Proof.
  split; [now destruct f|].
  destruct f; [exists 0%nat | exists 1%nat | exists 2%nat];
    (split; [reflexivity|]);
    intros [|[|[|j]]]; cbn; split; intros H; try reflexivity;
      try discriminate; try (now destruct j).
Qed.

End FormatButtonsFacts.

Module ApiClientFacts.
Import ApiClient.

Lemma or_else_truthy (a : option jsstring) (b : jsstring) :
  truthy b = true -> truthy (Home.or_else a b) = true.
Proof.
  intros Hb. unfold Home.or_else. destruct a as [s|]; [|exact Hb].
  destruct (truthy s) eqn:E; [exact E | exact Hb].
Qed.

Lemma app_differs (base a b : jsstring) : a <> b -> base ++ a <> base ++ b.
Proof. intros H E. apply H. now apply app_inv_head in E. Qed.

(** X5. The base URL is the environment value when there is a non-empty one
    and http://localhost:8000 otherwise, so it is never empty; the three
    operations go to the base followed by /process-image, /get-coordinates
    and /health, three different URLs whatever the base. *)
Theorem api_base_url_and_endpoints (env : option jsstring)
    (data : Api.ProcessImageRequest) (address : jsstring) :
  API_URL env <> []
  /\ (forall u, env = Some u -> u <> [] -> API_URL env = u)
  /\ (env = None \/ env = Some [] -> API_URL env = lit "http://localhost:8000")
  /\ url (processImage env data) = API_URL env ++ lit "/process-image"
  /\ url (getCoordinates env address) = API_URL env ++ lit "/get-coordinates"
  /\ url (healthCheck env) = API_URL env ++ lit "/health"
  /\ url (processImage env data) <> url (getCoordinates env address)
  /\ url (processImage env data) <> url (healthCheck env)
  /\ url (getCoordinates env address) <> url (healthCheck env).
Proof.
  split.
  { intros E. pose proof (or_else_truthy env default_url eq_refl) as H.
    unfold API_URL in E. rewrite E in H. discriminate. }
  split.
  { intros u -> Hu. unfold API_URL, Home.or_else.
    destruct u; [contradiction | reflexivity]. }
  split.
  { intros [->| ->]; reflexivity. }
  repeat split; cbn [url processImage getCoordinates healthCheck];
    apply app_differs; discriminate.
Qed.

Lemma api_base_url_and_endpoints_witness :
  API_URL (Some (lit "https://api.example.org")) = lit "https://api.example.org"
  /\ API_URL (Some []) = lit "http://localhost:8000"
  /\ API_URL None = lit "http://localhost:8000".
Proof.
  pose (data := Api.mkRequest Samples.sample_file (lit "Paris") png).
  destruct (api_base_url_and_endpoints
              (Some (lit "https://api.example.org")) data (lit "Paris"))
    as (_ & H1 & _).
  destruct (api_base_url_and_endpoints (Some []) data (lit "Paris"))
    as (_ & _ & H2 & _).
  destruct (api_base_url_and_endpoints None data (lit "Paris"))
    as (_ & _ & H3 & _).
  split; [apply H1; [reflexivity | discriminate]|].
  split; [apply H2; now right | apply H3; now left].
Defined.

End ApiClientFacts.

Module PageFacts.
Import Home Page.

Lemma apply_calls_progress (calls : list File) (s : state) :
  progress (apply_calls calls s) = progress s.
Proof.
  unfold apply_calls. revert s.
  induction calls as [|f calls IH]; intros s; [reflexivity|].
  cbn [fold_left]. now rewrite IH.
Qed.

Lemma progress_inv (s s' : state) :
  progress s' = progress s ->
  isProcessing s' = isProcessing s /\ processedBlob s' = processedBlob s /\
  error s' = error s /\ success s' = success s.
Proof. unfold progress. intros H. now injection H. Qed.

Lemma disabled_false_inv (s : state) :
  process_disabled s = false ->
  exists image, selectedImage s = Some image /\
                truthy (trim (address s)) = true /\ isProcessing s = false.
Proof.
  unfold process_disabled. destruct (selectedImage s) as [image|]; [|discriminate].
  intros H. apply orb_false_elim in H as [Ha Hp].
  exists image. repeat split; [|exact Hp]. now apply negb_false_iff in Ha.
Qed.

Lemma busy_disabled (s : state) : isProcessing s = true -> process_disabled s = true.
Proof.
  intros H. unfold process_disabled. rewrite H.
  destruct (selectedImage s); [apply orb_true_r | reflexivity].
Qed.

Lemma beginProcess_enabled (s : state) (image : File) :
  selectedImage s = Some image -> truthy (trim (address s)) = true ->
  beginProcess s
  = (mkState (Some image) (address s) (format s) true None None false,
     Some (mkClosure image (address s) (format s))).
Proof.
  intros Hi Ha. unfold beginProcess. rewrite Hi, Ha. cbn [negb].
  unfold setProcessedBlob, setSuccess, setError, setIsProcessing. cbn.
  now rewrite Hi.
Qed.

Lemma beginProcess_some (s s1 : state) (c : closure) :
  beginProcess s = (s1, Some c) ->
  selectedImage s = Some (captured_image c) /\
  captured_address c = address s /\ captured_format c = format s /\
  truthy (trim (address s)) = true.
Proof.
  unfold beginProcess. destruct (selectedImage s) as [image|]; [|discriminate].
  destruct (truthy (trim (address s))); cbn [negb]; [|discriminate].
  intros H. injection H as _ <-. auto.
Qed.

Lemma act_click_cases (p : page) :
  (process_disabled (view p) = true /\ act p Click = (p, []))
  \/ (process_disabled (view p) = false /\
      exists image,
        selectedImage (view p) = Some image /\
        act p Click
        = (mkPage (mkState (Some image) (address (view p)) (format (view p))
                           true None None false)
                  (inflight p ++ [mkClosure image (address (view p))
                                            (format (view p))]),
           [ProcessImage (Api.mkRequest image (address (view p))
                                        (format (view p)))])).
Proof.
  destruct (process_disabled (view p)) eqn:E.
  - left. split; [reflexivity|]. cbn [act]. now rewrite E.
  - right. split; [reflexivity|].
    destruct (disabled_false_inv _ E) as (image & Hi & Ha & _).
    exists image. split; [exact Hi|].
    cbn [act]. rewrite E, (beginProcess_enabled _ _ Hi Ha). reflexivity.
Qed.

(** X6. A click alone decides: on a disabled button it does nothing; on an
    enabled one it always sends the request, with the selected image, the
    address exactly as typed and the selected format, never taking the
    branch of [handleProcess] that reports missing inputs. *)
Theorem click_sends_or_does_nothing (p : page) :
  (process_disabled (view p) = true /\ act p Click = (p, []))
  \/ (process_disabled (view p) = false /\
      exists image,
        selectedImage (view p) = Some image /\
        act p Click
        = (mkPage (mkState (Some image) (address (view p)) (format (view p))
                           true None None false)
                  (inflight p ++ [mkClosure image (address (view p))
                                            (format (view p))]),
           [ProcessImage (Api.mkRequest image (address (view p))
                                        (format (view p)))])).
Proof. exact (act_click_cases p). Qed.

Lemma play_cons (p : page) (a : action) (l : list action) :
  play p (a :: l)
  = (fst (play (fst (act p a)) l), snd (act p a) ++ snd (play (fst (act p a)) l)).
Proof.
  cbn [play]. destruct (act p a) as [p1 out1]. cbn [fst snd].
  now destruct (play p1 l).
Qed.

Lemma play_app (l1 l2 : list action) (q : page) :
  play q (l1 ++ l2)
  = (fst (play (fst (play q l1)) l2),
     snd (play q l1) ++ snd (play (fst (play q l1)) l2)).
Proof.
  revert q. induction l1 as [|a l1 IH]; intros q.
  - cbn [app play fst snd]. now destruct (play q l2).
  - cbn [app]. rewrite !play_cons, IH. cbn [fst snd].
    now rewrite app_assoc.
Qed.

(** What an action other than the arrival of an answer does while a
    request is pending: nothing to the progress of the page. *)
Lemma act_while_pending (p : page) (a : action) (c : closure) :
  inflight p = [c] -> isProcessing (view p) = true -> is_settle a = false ->
  inflight (fst (act p a)) = [c] /\
  progress (view (fst (act p a))) = progress (view p) /\
  snd (act p a) = [].
Proof.
  intros Hc Hb Ha.
  destruct a as [f|files|addr|i| |resp]; try discriminate; cbn [act fst snd view inflight].
  - split; [exact Hc|]. split; [|reflexivity].
    cbn [step fst]. apply apply_calls_progress.
  - split; [exact Hc|]. split; [|reflexivity].
    cbn [step fst]. apply apply_calls_progress.
  - split; [exact Hc|]. split; reflexivity.
  - split; [exact Hc|]. split; [|reflexivity].
    cbn [step]. now destruct (FormatSelector.click i).
  - rewrite (busy_disabled _ Hb). cbn [fst snd].
    split; [exact Hc|]. split; reflexivity.
Qed.

Lemma play_while_pending (l : list action) :
  forall (p : page) (c : closure),
    inflight p = [c] -> isProcessing (view p) = true ->
    forallb (fun a => negb (is_settle a)) l = true ->
    inflight (fst (play p l)) = [c] /\
    progress (view (fst (play p l))) = progress (view p) /\
    snd (play p l) = [].
Proof.
  induction l as [|a l IH]; intros p c Hc Hb Hl;
    [split; [exact Hc | split; reflexivity]|].
  cbn [forallb] in Hl. apply andb_prop in Hl as [Ha Hl].
  apply negb_true_iff in Ha.
  destruct (act_while_pending p a c Hc Hb Ha) as (Hc1 & Hp1 & Ho1).
  assert (Hb1 : isProcessing (view (fst (act p a))) = true).
  { apply progress_inv in Hp1 as (H & _). now rewrite H. }
  destruct (IH _ c Hc1 Hb1 Hl) as (Hc2 & Hp2 & Ho2).
  rewrite play_cons. cbn [fst snd].
  split; [exact Hc2|]. split; [now rewrite Hp2 | now rewrite Ho1, Ho2].
Qed.

(** X7. The download belongs to the click. Whatever the user selects, drops,
    types or picks while the request is pending, and however often the
    button is clicked meanwhile, nothing is sent in between, and when the
    answer comes the file is downloaded once under the name made from the
    image and the format of the moment of the click. *)
Theorem download_uses_values_of_the_click
    (p : page) (image : File) (l : list action) (blob : Blob) :
  inflight p = [] ->
  process_disabled (view p) = false ->
  selectedImage (view p) = Some image ->
  forallb (fun a => negb (is_settle a)) l = true ->
  play p (Click :: l ++ [Settle (Api.Resolved blob)])
  = (mkPage (setIsProcessing false
               (setSuccess true
                  (setProcessedBlob (Some blob)
                     (view (fst (play (fst (act p Click)) l))))))
            [],
     [ ProcessImage (Api.mkRequest image (address (view p)) (format (view p)));
       CreateObjectURL blob;
       ClickDownload (download_name image (format (view p))) blob;
       RevokeObjectURL blob ]).
Proof.
  intros Hin Hen Hi Hl.
  destruct (act_click_cases p) as [[Hd _]|(_ & image' & Hi' & Hact)];
    [congruence|].
  assert (image' = image) by congruence. subst image'.
  rewrite Hin in Hact. cbn [app] in Hact.
  set (c := mkClosure image (address (view p)) (format (view p))) in *.
  rewrite play_cons, play_app, Hact. cbn [fst snd].
  destruct (play_while_pending l (mkPage (mkState (Some image) (address (view p))
                                            (format (view p)) true None None false)
                                         [c]) c eq_refl eq_refl Hl)
    as (Hc & _ & Ho).
  rewrite Ho. cbn [app]. cbn [play act]. rewrite Hc.
  cbn [completeProcess fst snd]. reflexivity.
Qed.

Lemma download_uses_values_of_the_click_witness :
  snd (play (mkPage (mkState (Some Samples.sample_file) (lit " Paris ") webp
                             false None None false) [])
            [Click; Select Samples.second_image; PickFormat 0; Click;
             TypeIn (lit "Rome"); Settle (Api.Resolved [x01])])
  = [ ProcessImage (Api.mkRequest Samples.sample_file (lit " Paris ") webp);
      CreateObjectURL [x01];
      ClickDownload (lit "holiday_gps.webp") [x01];
      RevokeObjectURL [x01] ].
Proof.
  pose proof (download_uses_values_of_the_click
                (mkPage (mkState (Some Samples.sample_file) (lit " Paris ") webp
                                 false None None false) [])
                Samples.sample_file
                [Select Samples.second_image; PickFormat 0; Click;
                 TypeIn (lit "Rome")]
                [x01] eq_refl eq_refl eq_refl eq_refl) as H.
  apply (f_equal snd) in H. exact H.
Defined.

(** X8. When the answer comes the page is settled: nothing is pending and
    [isProcessing] is false again. After a success, [success] is set, the
    blob is kept and there is no error; after a failure there is no blob,
    [success] is unset and [error] holds a message that is never empty:
    the detail of the failure if it has a non-empty one, the fixed message
    otherwise. *)
Theorem answer_settles_the_page
    (p : page) (l : list action) (resp : Api.response) :
  inflight p = [] ->
  process_disabled (view p) = false ->
  forallb (fun a => negb (is_settle a)) l = true ->
  let q := fst (play p (Click :: l ++ [Settle resp])) in
  inflight q = [] /\ isProcessing (view q) = false /\
  match resp with
  | Api.Resolved blob =>
      success (view q) = true /\ processedBlob (view q) = Some blob /\
      error (view q) = None
  | Api.Rejected detail =>
      success (view q) = false /\ processedBlob (view q) = None /\
      exists m, error (view q) = Some m /\ m <> [] /\
                (forall d, detail = Some d -> d <> [] -> m = d) /\
                (detail = None \/ detail = Some [] ->
                 m = lit "Failed to process image. Please try again.")
  end.
Proof.
  intros Hin Hen Hl q. subst q.
  destruct (act_click_cases p) as [[Hd _]|(_ & image & Hi & Hact)];
    [congruence|].
  rewrite Hin in Hact. cbn [app] in Hact.
  set (c := mkClosure image (address (view p)) (format (view p))) in *.
  rewrite play_cons, play_app, Hact. cbn [fst snd].
  destruct (play_while_pending l (mkPage (mkState (Some image) (address (view p))
                                            (format (view p)) true None None false)
                                         [c]) c eq_refl eq_refl Hl)
    as (Hc & Hp & _).
  apply progress_inv in Hp as (_ & Hblob & Herr & Hsucc).
  cbn [view processedBlob error success] in Hblob, Herr, Hsucc.
  cbn [play act]. rewrite Hc.
  destruct resp as [blob|detail]; cbn [completeProcess fst snd view inflight].
  - split; [reflexivity|]. split; [reflexivity|].
    split; [reflexivity|]. split; [reflexivity|]. exact Herr.
  - split; [reflexivity|]. split; [reflexivity|].
    split; [exact Hsucc|]. split; [exact Hblob|].
    exists (or_else detail failure_message). split; [reflexivity|].
    split.
    { intros E. pose proof (ApiClientFacts.or_else_truthy detail failure_message
                              eq_refl) as H.
      rewrite E in H. discriminate. }
    split.
    + intros d -> Hd. unfold or_else. destruct d; [contradiction|reflexivity].
    + intros [->| ->]; reflexivity.
Qed.

Lemma answer_settles_the_page_witness :
  let q := fst (play (mkPage (mkState (Some Samples.sample_file) (lit "Paris")
                                      png false None None false) [])
                     [Click; TypeIn (lit "Rome"); Settle (Api.Rejected (Some []))]) in
  isProcessing (view q) = false /\ success (view q) = false /\
  error (view q) = Some (lit "Failed to process image. Please try again.").
Proof.
  intros q.
  destruct (answer_settles_the_page
              (mkPage (mkState (Some Samples.sample_file) (lit "Paris")
                               png false None None false) [])
              [TypeIn (lit "Rome")] (Api.Rejected (Some []))
              eq_refl eq_refl eq_refl)
    as (_ & Hbusy & Hs & _ & m & Hm & _ & _ & Hdefault).
  split; [exact Hbusy|]. split; [exact Hs|].
  rewrite <- (Hdefault (or_intror eq_refl)). exact Hm.
Defined.

(** X9. When nothing happens between the click and the answer, the page ends
    as [handleProcess] run in one go says, state and effects alike. *)
Theorem click_then_answer_is_handleProcess (p : page) (resp : Api.response) :
  inflight p = [] ->
  play p [Click; Settle resp]
  = (mkPage (fst (step (view p) (ClickProcess resp))) [],
     snd (step (view p) (ClickProcess resp))).
Proof.
  intros Hin. rewrite play_cons. cbn [step].
  destruct (act_click_cases p) as [[Hd ->]|(Hen & image & Hi & ->)].
  - rewrite Hd. cbn [fst snd play act]. rewrite Hin.
    destruct p as [s fl]. cbn [inflight view] in *. now subst fl.
  - rewrite Hen, Hin. cbn [app fst snd play act inflight view].
    destruct (disabled_false_inv _ Hen) as (image' & Hi' & Ha & _).
    unfold handleProcess. rewrite Hi, Ha. cbn [negb].
    unfold setProcessedBlob, setSuccess, setError, setIsProcessing.
    cbn [selectedImage address format isProcessing processedBlob error success].
    rewrite Hi.
    destruct resp as [blob|detail]; reflexivity.
Qed.

Lemma click_then_answer_is_handleProcess_witness :
  play (mkPage (mkState (Some Samples.sample_file) (lit "Paris") png
                        false None None false) [])
       [Click; Settle (Api.Resolved [x01])]
  = (mkPage (mkState (Some Samples.sample_file) (lit "Paris") png
                     false (Some [x01]) None true) [],
     [ ProcessImage (Api.mkRequest Samples.sample_file (lit "Paris") png);
       CreateObjectURL [x01];
       ClickDownload (lit "holiday_gps.png") [x01];
       RevokeObjectURL [x01] ]).
Proof.
  exact (click_then_answer_is_handleProcess
           (mkPage (mkState (Some Samples.sample_file) (lit "Paris") png
                            false None None false) [])
           (Api.Resolved [x01]) eq_refl).
Defined.

(** X10. From the initial page, choosing any file through the file input and
    typing any address that is not blank enables the button, and the click
    sends that file as it is, of whatever type, with the address as typed
    and the format jpeg, the default. *)
Theorem first_request_from_initial_page (f : File) (a : jsstring) :
  truthy (trim a) = true ->
  play start [Select f; TypeIn a; Click]
  = (mkPage (mkState (Some f) a jpeg true None None false)
            [mkClosure f a jpeg],
     [ProcessImage (Api.mkRequest f a jpeg)]).
Proof.
  intros Ha. cbn [play act start view inflight step fst snd app
                    ImageUploader.handleFileInput apply_calls fold_left].
  unfold setAddress, setSelectedImage.
  cbn [initial selectedImage address format isProcessing processedBlob error success].
  unfold process_disabled, beginProcess.
  cbn [selectedImage address format isProcessing]. rewrite Ha.
  reflexivity.
Qed.

Lemma first_request_from_initial_page_witness :
  snd (play start [Select Samples.notes_file; TypeIn (lit " Rome"); Click])
  = [ProcessImage (Api.mkRequest Samples.notes_file (lit " Rome") jpeg)].
Proof.
  rewrite (first_request_from_initial_page Samples.notes_file (lit " Rome") eq_refl).
  reflexivity.
Defined.

Lemma act_keeps_single_flight (p : page) (a : action) :
  (inflight p = [] /\ isProcessing (view p) = false)
  \/ (exists c, inflight p = [c] /\ isProcessing (view p) = true) ->
  (inflight (fst (act p a)) = [] /\ isProcessing (view (fst (act p a))) = false)
  \/ (exists c, inflight (fst (act p a)) = [c] /\
                isProcessing (view (fst (act p a))) = true).
Proof.
  intros Hinv.
  assert (Huser : forall a,
             match a with Click | Settle _ => False | _ => True end ->
             progress (view (fst (act p a))) = progress (view p)
             /\ inflight (fst (act p a)) = inflight p).
  { intros [f|files|addr|i| |resp] Ha; try contradiction;
      (split; [|reflexivity]); cbn [act fst view step].
    - apply apply_calls_progress.
    - apply apply_calls_progress.
    - reflexivity.
    - now destruct (FormatSelector.click i). }
  destruct a as [f|files|addr|i| |resp].
  - destruct (Huser (Select f) I) as [Hp Hi].
    apply progress_inv in Hp as (Hb & _). rewrite Hi, Hb. exact Hinv.
  - destruct (Huser (DropOn files) I) as [Hp Hi].
    apply progress_inv in Hp as (Hb & _). rewrite Hi, Hb. exact Hinv.
  - destruct (Huser (TypeIn addr) I) as [Hp Hi].
    apply progress_inv in Hp as (Hb & _). rewrite Hi, Hb. exact Hinv.
  - destruct (Huser (PickFormat i) I) as [Hp Hi].
    apply progress_inv in Hp as (Hb & _). rewrite Hi, Hb. exact Hinv.
  - destruct (act_click_cases p) as [[_ ->]|(Hen & image & _ & ->)];
      [exact Hinv|].
    destruct Hinv as [[Hnil _]|(c & _ & Hb)].
    + right. rewrite Hnil. cbn [fst inflight view app isProcessing]. eauto.
    + rewrite (busy_disabled _ Hb) in Hen. discriminate.
  - cbn [act]. destruct Hinv as [[Hnil Hb]|(c & Hc & Hb)].
    + rewrite Hnil. cbn [fst]. left. auto.
    + rewrite Hc. left.
      destruct resp; cbn [completeProcess fst view inflight]; auto.
Qed.

(** X11. At most one request is pending at any time: after any actions from
    the initial page, either nothing is pending and [isProcessing] is
    false, or exactly one request is pending, [isProcessing] is true and
    the button is disabled. *)
Theorem at_most_one_request_pending (l : list action) :
  let p := fst (play start l) in
  (inflight p = [] /\ isProcessing (view p) = false)
  \/ (exists c, inflight p = [c] /\ isProcessing (view p) = true /\
                process_disabled (view p) = true).
Proof.
  assert (H : forall l p,
             (inflight p = [] /\ isProcessing (view p) = false)
             \/ (exists c, inflight p = [c] /\ isProcessing (view p) = true) ->
             (inflight (fst (play p l)) = [] /\
              isProcessing (view (fst (play p l))) = false)
             \/ (exists c, inflight (fst (play p l)) = [c] /\
                           isProcessing (view (fst (play p l))) = true)).
  { clear l. induction l as [|a l IH]; intros p Hp; [exact Hp|].
    rewrite play_cons. cbn [fst]. apply IH. now apply act_keeps_single_flight. }
  intros p. subst p.
  destruct (H l start (or_introl (conj eq_refl eq_refl))) as [Hq|(c & Hc & Hb)];
    [now left|].
  right. exists c. repeat split; [exact Hc | exact Hb | now apply busy_disabled].
Qed.

Lemma requests_app (l1 l2 : list effect) :
  requests (l1 ++ l2) = requests l1 ++ requests l2.
Proof.
  induction l1 as [|e l1 IH]; [reflexivity|].
  destruct e; cbn [app requests]; now rewrite IH.
Qed.

Lemma created_app (l1 l2 : list effect) :
  created (l1 ++ l2) = created l1 ++ created l2.
Proof.
  induction l1 as [|e l1 IH]; [reflexivity|].
  destruct e; cbn [app created]; now rewrite IH.
Qed.

Lemma revoked_app (l1 l2 : list effect) :
  revoked (l1 ++ l2) = revoked l1 ++ revoked l2.
Proof.
  induction l1 as [|e l1 IH]; [reflexivity|].
  destruct e; cbn [app revoked]; now rewrite IH.
Qed.

Lemma act_effects (p : page) (a : action) :
  created (snd (act p a)) = revoked (snd (act p a))
  /\ Forall (fun req => truthy (trim (Api.address req)) = true)
            (requests (snd (act p a)))
  /\ (List.length (requests (snd (act p a)))
      <= if is_settle a then 0 else match a with Click => 1 | _ => 0 end)%nat.
Proof.
  destruct a as [f|files|addr|i| |resp];
    try (split; [reflexivity|split; [constructor|apply Nat.le_refl]]).
  - destruct (act_click_cases p) as [[_ ->]|(Hen & image & _ & ->)].
    + split; [reflexivity|]. split; [constructor | apply Nat.le_0_l].
    + destruct (disabled_false_inv _ Hen) as (_ & _ & Ha & _).
      split; [reflexivity|]. split; [|apply Nat.le_refl].
      constructor; [exact Ha | constructor].
  - cbn [act]. destruct (inflight p) as [|c rest];
      [split; [reflexivity|split; [constructor|apply Nat.le_refl]]|].
    destruct resp; cbn; (split; [reflexivity|split; [constructor|apply Nat.le_refl]]).
Qed.

(** X12. Whatever the page and whatever happens on it, every request sent has
    an address that is not blank, and no more requests are sent than the
    button is clicked. *)
Theorem every_request_has_an_address (p : page) (l : list action) :
  Forall (fun req => truthy (trim (Api.address req)) = true)
         (requests (snd (play p l)))
  /\ (List.length (requests (snd (play p l)))
      <= List.length (filter (fun a => match a with Click => true | _ => false end) l))%nat.
Proof.
  revert p. induction l as [|a l IH]; intros p.
  - split; [constructor | apply Nat.le_refl].
  - rewrite play_cons. cbn [snd]. rewrite requests_app.
    destruct (act_effects p a) as (_ & Hreq & Hlen).
    destruct (IH (fst (act p a))) as [IH1 IH2].
    split; [apply Forall_app; now split|].
    rewrite length_app. cbn [filter].
    destruct a; cbn [is_settle List.length] in *; lia.
Qed.

(** X13. Whatever the page and whatever happens on it, the object URLs made
    for downloads are revoked: the blobs given to [URL.createObjectURL]
    are, one for one and in the same order, those given to
    [URL.revokeObjectURL]. *)
Theorem download_urls_are_revoked (p : page) (l : list action) :
  created (snd (play p l)) = revoked (snd (play p l)).
Proof.
  revert p. induction l as [|a l IH]; intros p; [reflexivity|].
  rewrite play_cons. cbn [snd]. rewrite created_app, revoked_app.
  destruct (act_effects p a) as (H & _). now rewrite H, IH.
Qed.

End PageFacts.

Module AddressInputFacts.
Import AddressInput.

(** X14. Leaving the field empty or blank sends no request and clears both the
    coordinates and the error, whatever was shown; [isValidating] is left
    as it was. *)
Theorem blur_on_blank_clears (number : Type) (callback : bool)
    (value : jsstring) (resp : response number) (s : state number) :
  forallb is_whitespace value = true ->
  handleBlur callback value resp s = (mkState (isValidating s) None None, []).
Proof.
  intros H. unfold handleBlur, beginBlur.
  now rewrite (JSFacts.trim_all_whitespace _ H).
Qed.

Lemma blur_on_blank_clears_witness :
  handleBlur true (lit "  ") (Found (mkCoordinates (lit "x") 1%Z 2%Z))
             (mkState true (Some (3%Z, 4%Z)) (Some (lit "old")))
  = (mkState true None None, []).
Proof.
  apply (blur_on_blank_clears Z true (lit "  ")
           (Found (mkCoordinates (lit "x") 1%Z 2%Z))
           (mkState true (Some (3%Z, 4%Z)) (Some (lit "old")))).
  reflexivity.
Defined.

(** X15. A blur that nothing interrupts never leaves the found block and the
    error block on screen together. With a value that is not blank it
    sends one request for the value as typed and ends with [isValidating]
    false; a success stores the coordinates of the answer, clears the
    error and calls [onCoordinatesFound] with them when the prop is given;
    a failure clears the coordinates, calls nothing and stores a message
    that is never empty. *)
Theorem blur_shows_result_or_error (number : Type) (callback : bool)
    (value : jsstring) (resp : response number) (s : state number) :
  let s' := fst (handleBlur callback value resp s) in
  let out := snd (handleBlur callback value resp s) in
  shows_found s' && shows_error s' = false
  /\ (truthy (trim value) = true ->
      isValidating s' = false /\
      match resp with
      | Found r =>
          coordinates s' = Some (latitude r, longitude r) /\ error s' = None /\
          out = GetCoordinates value
                :: (if callback then [OnCoordinatesFound (latitude r) (longitude r)]
                    else [])
      | Failed detail =>
          coordinates s' = None /\ out = [GetCoordinates value] /\
          exists m, error s' = Some m /\ m <> [] /\
                    (forall d, detail = Some d -> d <> [] -> m = d) /\
                    (detail = None \/ detail = Some [] ->
                     m = lit "Could not find this address")
      end).
Proof.
  cbv zeta. unfold handleBlur, beginBlur.
  destruct (truthy (trim value)) eqn:E; cbn [negb].
  - destruct resp as [r|detail]; cbn [completeBlur fst snd].
    + split; [reflexivity|]. intros _. repeat split.
    + split; [reflexivity|]. intros _.
      split; [reflexivity|]. split; [reflexivity|]. split; [reflexivity|].
      exists (Home.or_else detail (not_found_message)). split; [reflexivity|].
      split.
      { intros H.
        pose proof (ApiClientFacts.or_else_truthy detail not_found_message
                      eq_refl) as Ht.
        rewrite H in Ht. discriminate. }
      split.
      * intros d -> Hd. unfold Home.or_else.
        destruct d; [contradiction | reflexivity].
      * intros [->| ->]; reflexivity.
  - cbn [fst snd]. split; [reflexivity | discriminate].
Qed.

Lemma blur_shows_result_or_error_witness :
  fst (handleBlur false (lit "Eiffel Tower")
                  (Found (mkCoordinates (lit "Paris") 48%Z 2%Z))
                  (mkState false None (Some (lit "old"))))
  = mkState false (Some (48%Z, 2%Z)) None
  /\ snd (handleBlur false (lit "Eiffel Tower")
                     (Found (mkCoordinates (lit "Paris") 48%Z 2%Z))
                     (mkState false None (Some (lit "old"))))
     = [GetCoordinates (lit "Eiffel Tower")].
Proof.
  destruct (blur_shows_result_or_error Z false (lit "Eiffel Tower")
              (Found (mkCoordinates (lit "Paris") 48%Z 2%Z))
              (mkState false None (Some (lit "old")))) as [_ H].
  destruct (H eq_refl) as (Hv & Hc & He & Hout).
  split; [|exact Hout]. reflexivity.
Defined.

(** X16. Two validations may overlap, and the answers are applied as they
    come. When the later blur fails first and the earlier one succeeds
    after it, the field ends showing the coordinates of the earlier value
    together with the error of the later one; and [isValidating] is
    already false after the first answer, while the other request is
    still pending. *)
Theorem overlapping_blurs_show_stale_result (number : Type)
    (callback1 callback2 : bool) (value1 value2 : jsstring)
    (r : CoordinatesResponse number) (detail : option jsstring)
    (s : state number) :
  truthy (trim value1) = true -> truthy (trim value2) = true ->
  let s1 := fst (beginBlur value1 s) in
  let s2 := fst (beginBlur value2 s1) in
  let s3 := fst (completeBlur callback2 (Failed detail) s2) in
  let s4 := fst (completeBlur callback1 (Found r) s3) in
  snd (beginBlur value1 s) = true /\ snd (beginBlur value2 s1) = true /\
  isValidating s3 = false /\
  coordinates s4 = Some (latitude r, longitude r) /\
  shows_found s4 = true /\ shows_error s4 = true.
Proof.
  intros H1 H2. cbv zeta. unfold beginBlur. rewrite H1. cbn [negb fst snd].
  rewrite H2. cbn [negb fst snd completeBlur].
  repeat split. unfold shows_error. cbn [error].
  now apply ApiClientFacts.or_else_truthy.
Qed.

Lemma overlapping_blurs_show_stale_result_witness :
  let s1 := fst (beginBlur (lit "Paris") (mkState false None None)) in
  let s2 := fst (beginBlur (lit "Pari") s1) in
  let s3 := fst (completeBlur false (@Failed Z None) s2) in
  let s4 := fst (completeBlur false (Found (mkCoordinates (lit "Paris") 48%Z 2%Z)) s3) in
  coordinates s4 = Some (48%Z, 2%Z) /\ shows_found s4 = true /\
  shows_error s4 = true.
Proof.
  cbv zeta.
  destruct (overlapping_blurs_show_stale_result Z false false
              (lit "Paris") (lit "Pari")
              (mkCoordinates (lit "Paris") 48%Z 2%Z) None
              (mkState false None None) eq_refl eq_refl)
    as (_ & _ & _ & Hc & Hf & He).
  split; [exact Hc|]. split; [exact Hf | exact He].
Defined.

End AddressInputFacts.

Module ImagePreviewFacts.
Import ImagePreview.

Lemma track_app (l1 l2 : list effect) (live : list object_url) :
  track live (l1 ++ l2)
  = match track live l1 with
    | Some live' => track live' l2
    | None => None
    end.
Proof.
  revert live. induction l1 as [|e l1 IH]; intros live; [reflexivity|].
  destruct e as [u f|u]; cbn [app track];
    destruct (existsb (Nat.eqb u) live); try reflexivity; apply IH.
Qed.

Lemma track_cleanup (i : instance) : track (live_of i) (run_cleanup i) = Some [].
Proof.
  unfold live_of, run_cleanup. destruct (cleanup i) as [u|]; [|reflexivity].
  cbn. now rewrite Nat.eqb_refl.
Qed.

Lemma update_tracked (i : instance) (fresh : object_url) (file : option File) :
  cleanup i = previewUrl i ->
  let '(i', out, _) := update i fresh file in
  track (live_of i) out = Some (live_of i') /\
  cleanup i' = previewUrl i' /\
  renders i' = match file with Some _ => true | None => false end.
Proof.
  intros Hi. unfold update.
  destruct file as [f|]; cbn [effect_body]; rewrite track_app, track_cleanup;
    repeat split.
Qed.

Lemma updates_tracked (files : list (option File)) :
  forall (i : instance) (fresh : object_url),
    cleanup i = previewUrl i ->
    let '(i', out, _) := updates i fresh files in
    track (live_of i) out = Some (live_of i') /\
    cleanup i' = previewUrl i' /\
    renders i' = match files with
                 | [] => renders i
                 | _ :: _ =>
                     match last files None with Some _ => true | None => false end
                 end.
Proof.
  induction files as [|file files IH]; intros i fresh Hi.
  - cbn. auto.
  - cbn [updates].
    pose proof (update_tracked i fresh file Hi) as Hu.
    destruct (update i fresh file) as [[i1 out1] fresh1].
    destruct Hu as (Ht1 & Hi1 & Hr1).
    specialize (IH i1 fresh1 Hi1).
    destruct (updates i1 fresh1 files) as [[i2 out2] fresh2].
    destruct IH as (Ht2 & Hi2 & Hr2).
    split; [now rewrite track_app, Ht1|]. split; [exact Hi2|].
    rewrite Hr2. destruct files as [|file' files]; [exact Hr1 | reflexivity].
Qed.

(** X17. Object URLs of the preview never leak and are never revoked twice.
    While the component is mounted, the URLs created and not yet revoked
    are the one in [previewUrl] if there is one, none otherwise, and a
    preview is rendered exactly when the last [file] is not null; once it
    is unmounted, every URL it created has been revoked, each revocation
    being of a URL alive at that moment. *)
Theorem preview_urls_never_leak (fresh : object_url) (files : list (option File)) :
  (let '(i, out, _) := updates unmounted fresh files in
   track [] out
   = Some (match previewUrl i with Some u => [u] | None => [] end)
   /\ renders i = match last files None with Some _ => true | None => false end)
  /\ track [] (lifetime fresh files) = Some [].
Proof.
  pose proof (updates_tracked files unmounted fresh eq_refl) as H.
  unfold lifetime.
  destruct (updates unmounted fresh files) as [[i out] fresh'].
  destruct H as (Ht & Hi & Hr).
  change (live_of unmounted) with (@nil object_url) in Ht.
  split; [split|].
  - rewrite Ht. unfold live_of. now rewrite Hi.
  - rewrite Hr. now destruct files.
  - now rewrite track_app, Ht, track_cleanup.
Qed.

End ImagePreviewFacts.

(* ================================================================== *)
(** * Properties of the coordinate codec *)

Module CoordinateCodecFacts.
Import CoordinateCodec.
Local Open Scope Q_scope.


Lemma floor_nonneg (x : Q) : 0 <= x -> (0 <= Qfloor x)%Z.
Proof.
  intros H. change 0%Z with (Qfloor 0). now apply Qfloor_resp_le.
Qed.

Lemma in_range_true (x : Q) (a : axis) :
  Qabs x <= limit a -> in_range x a = true.
Proof. intros H. unfold in_range. now apply Qle_bool_iff. Qed.

Lemma in_range_false (x : Q) (a : axis) :
  limit a < Qabs x -> in_range x a = false.
Proof.
  intros H. unfold in_range.
  destruct (Qle_bool (Qabs x) (limit a)) eqn:E; [|reflexivity].
  apply Qle_bool_iff in E. exfalso. now apply (Qlt_not_le _ _ H).
Qed.


Lemma round_nonneg (x : Q) : 0 <= x -> (0 <= round x)%Z.
Proof. intros H. unfold round. apply floor_nonneg. lra. Qed.





Example toDMS_zero_lat :
  toDMS (Finite 0) lat = Ok (mkDMS 0 0 (0 # 1000000), RefN).
Proof. reflexivity. Qed.

Example toDMS_zero_lon :
  toDMS (Finite 0) lon = Ok (mkDMS 0 0 (0 # 1000000), RefE).
Proof. reflexivity. Qed.

Example toDMS_eiffel_lat :
  toDMS (Finite (488584 # 10000)) lat
  = Ok (mkDMS 48 51 (30240000 # 1000000), RefN).
Proof. reflexivity. Qed.

(** C4. [toDMS] fails with [InvalidCoordinate] for every latitude outside
    [-90, 90], every longitude outside [-180, 180] and every input that
    is not finite, returning no clamped value; it succeeds for every
    finite input inside the closed range. *)
Theorem toDMS_range_check (a : axis) :
  (forall x, x < - limit a \/ limit a < x ->
             toDMS (Finite x) a = Err InvalidCoordinate)
  /\ (forall x, - limit a <= x <= limit a ->
                exists d r, toDMS (Finite x) a = Ok (d, r))
  /\ (forall negative, toDMS (Infinite negative) a = Err InvalidCoordinate)
  /\ toDMS NaN a = Err InvalidCoordinate
  /\ limit lat = 90 /\ limit lon = 180.
Proof.
  split; [|split; [|repeat split]].
  - intros x Hx. unfold toDMS. rewrite in_range_false; [reflexivity|].
    destruct Hx as [Hx|Hx].
    + apply Qlt_le_trans with (- x); [lra|].
      rewrite <- Qabs_opp. apply Qle_Qabs.
    + apply Qlt_le_trans with x; [exact Hx | apply Qle_Qabs].
  - intros x Hx. unfold toDMS. rewrite in_range_true.
    + eexists. eexists. reflexivity.
    + apply Qabs_Qle_condition. exact Hx.
Qed.

Lemma toDMS_range_check_witness :
  toDMS (Finite (901 # 10)) lat = Err InvalidCoordinate
  /\ toDMS (Finite (-1801 # 10)) lon = Err InvalidCoordinate
  /\ (exists d r, toDMS (Finite 90) lat = Ok (d, r))
  /\ (exists d r, toDMS (Finite (-180)) lon = Ok (d, r)).
Proof.
  destruct (toDMS_range_check lat) as (Hout & Hin & _).
  destruct (toDMS_range_check lon) as (Hout' & Hin' & _).
  split; [apply Hout; right; reflexivity|].
  split; [apply Hout'; left; reflexivity|].
  split; [apply Hin | apply Hin']; split; discriminate.
Defined.



End CoordinateCodecFacts.

(* ================================================================== *)
(** * Properties of the byte-level encodings *)

Module BytesFacts.

Local Open Scope N_scope.

Local Ltac Zify.zify_post_hook ::= Z.to_euclidean_division_equations.

Lemma to_N_byte_of_N (n : N) : Byte.to_N (byte_of_N n) = n mod 256.
Proof.
  unfold byte_of_N. destruct (Byte.of_N (n mod 256)) as [b|] eqn:E.
  - now apply Byte.to_of_N.
  - apply Byte.of_N_None_iff in E. lia.
Qed.

Lemma byte_of_to_N (b : byte) : byte_of_N (Byte.to_N b) = b.
Proof.
  unfold byte_of_N. pose proof (Byte.to_N_bounded b) as Hb.
  rewrite N.mod_small by lia. now rewrite Byte.of_to_N.
Qed.

Lemma u16be_be16 (n : N) :
  n < 65536 -> u16be (byte_of_N (n / 256)) (byte_of_N n) = n.
Proof.
  intros Hn. unfold u16be. rewrite !to_N_byte_of_N. lia.
Qed.

Lemma u32be_be32 (n : N) :
  n < 4294967296 ->
  u32be (byte_of_N (n / 16777216)) (byte_of_N (n / 65536))
        (byte_of_N (n / 256)) (byte_of_N n) = n.
Proof.
  intros Hn. unfold u32be. rewrite !to_N_byte_of_N. lia.
Qed.

Lemma u32le_le32 (n : N) :
  n < 4294967296 ->
  u32le (byte_of_N n) (byte_of_N (n / 256))
        (byte_of_N (n / 65536)) (byte_of_N (n / 16777216)) = n.
Proof. intros Hn. unfold u32le. now apply u32be_be32. Qed.

Lemma be16_u16be (a b : byte) : be16 (u16be a b) = [a; b].
Proof.
  unfold be16, u16be.
  pose proof (Byte.to_N_bounded a). pose proof (Byte.to_N_bounded b).
  replace ((Byte.to_N a * 256 + Byte.to_N b) / 256) with (Byte.to_N a) by lia.
  rewrite byte_of_to_N. f_equal. f_equal.
  rewrite <- (byte_of_to_N b) at 2. unfold byte_of_N.
  replace ((Byte.to_N a * 256 + Byte.to_N b) mod 256) with (Byte.to_N b mod 256) by lia.
  reflexivity.
Qed.

Lemma len_app (a b : buffer) : len (a ++ b) = len a + len b.
Proof. unfold len. rewrite length_app. lia. Qed.

Lemma len_nil : len [] = 0.
Proof. reflexivity. Qed.

Lemma len_cons (x : byte) (b : buffer) : len (x :: b) = 1 + len b.
Proof. unfold len. simpl List.length. lia. Qed.

Lemma len_be16 (n : N) : len (be16 n) = 2.
Proof. reflexivity. Qed.

Lemma len_be32 (n : N) : len (be32 n) = 4.
Proof. reflexivity. Qed.

Lemma len_le32 (n : N) : len (le32 n) = 4.
Proof. reflexivity. Qed.

Lemma take_app (a b : buffer) (n : N) :
  len a = n -> take n (a ++ b) = Some (a, b).
Proof.
  intros <-. unfold take. rewrite len_app.
  replace (len a <=? len a + len b) with true by (symmetry; apply N.leb_le; lia).
  unfold len. rewrite Nat2N.id.
  rewrite firstn_app, Nat.sub_diag, firstn_all, firstn_O, app_nil_r.
  rewrite skipn_app, Nat.sub_diag, skipn_all. reflexivity.
Qed.

Lemma take_inv (n : N) (b p r : buffer) :
  take n b = Some (p, r) -> b = p ++ r /\ len p = n.
Proof.
  unfold take. destruct (N.leb_spec n (len b)) as [Hle|]; [|discriminate].
  intros H. injection H as <- <-. split.
  - symmetry. apply firstn_skipn.
  - unfold len in *. rewrite length_firstn. lia.
Qed.

Lemma slice_app (x p y : buffer) (off n : N) :
  len x = off -> len p = n -> slice off n (x ++ p ++ y) = Some p.
Proof.
  intros <- <-. unfold slice. rewrite !len_app.
  replace (len x + len p <=? len x + (len p + len y)) with true
    by (symmetry; apply N.leb_le; lia).
  unfold len. rewrite !Nat2N.id.
  rewrite skipn_app, Nat.sub_diag, skipn_all. simpl.
  rewrite firstn_app, Nat.sub_diag, firstn_all, firstn_O, app_nil_r.
  reflexivity.
Qed.

Lemma buffer_eqb_refl (b : buffer) : buffer_eqb b b = true.
Proof. unfold buffer_eqb. now destruct (list_eq_dec Byte.byte_eq_dec b b). Qed.

Lemma buffer_eqb_eq (a b : buffer) : buffer_eqb a b = true -> a = b.
Proof.
  unfold buffer_eqb. now destruct (list_eq_dec Byte.byte_eq_dec a b).
Qed.

Lemma u16be_bound (a b : byte) : u16be a b < 65536.
Proof.
  unfold u16be.
  pose proof (Byte.to_N_bounded a). pose proof (Byte.to_N_bounded b). lia.
Qed.

Lemma u32be_bound (a b c d : byte) : u32be a b c d < 4294967296.
Proof.
  unfold u32be.
  pose proof (Byte.to_N_bounded a). pose proof (Byte.to_N_bounded b).
  pose proof (Byte.to_N_bounded c). pose proof (Byte.to_N_bounded d). lia.
Qed.

Lemma byte_of_N_eq (n : N) (b : byte) :
  n mod 256 = Byte.to_N b -> byte_of_N n = b.
Proof. unfold byte_of_N. intros ->. now rewrite Byte.of_to_N. Qed.

Lemma be32_u32be (a b c d : byte) : be32 (u32be a b c d) = [a; b; c; d].
Proof.
  pose proof (Byte.to_N_bounded a). pose proof (Byte.to_N_bounded b).
  pose proof (Byte.to_N_bounded c). pose proof (Byte.to_N_bounded d).
  unfold be32.
  rewrite (byte_of_N_eq (u32be a b c d / 16777216) a) by (unfold u32be; lia).
  rewrite (byte_of_N_eq (u32be a b c d / 65536) b) by (unfold u32be; lia).
  rewrite (byte_of_N_eq (u32be a b c d / 256) c) by (unfold u32be; lia).
  rewrite (byte_of_N_eq (u32be a b c d) d) by (unfold u32be; lia).
  reflexivity.
Qed.

Lemma le32_u32le (a b c d : byte) : le32 (u32le a b c d) = [a; b; c; d].
Proof.
  pose proof (be32_u32be d c b a) as H. unfold be32 in H.
  unfold le32, u32le. injection H as -> -> -> ->. reflexivity.
Qed.

End BytesFacts.

(* ================================================================== *)
(** * Properties of the TIFF block *)

Module TiffFacts.
Import Metadata Tiff BytesFacts.

Local Open Scope N_scope.

Lemma type_of_code_type_code (t : entry_type) :
  type_of_code (type_code t) = Some t.
Proof. now destruct t. Qed.

Lemma be16_type_code (t : entry_type) :
  exists y0 y1, be16 (type_code t) = [y0; y1] /\ u16be y0 y1 = type_code t.
Proof.
  eexists. eexists. split; [reflexivity|].
  apply u16be_be16. destruct t; reflexivity.
Qed.

Lemma decode_shorts_encode (l : list N) :
  forallb (fun n => n <? 65536) l = true ->
  decode_shorts (List.concat (map be16 l)) = Some l.
Proof.
  induction l as [|n l IH]; simpl; intros H; [reflexivity|].
  apply andb_prop in H as [Hn Hl]. apply N.ltb_lt in Hn.
  rewrite (IH Hl). simpl. now rewrite u16be_be16.
Qed.

Lemma decode_longs_encode (l : list N) :
  forallb (fun n => n <? 4294967296) l = true ->
  decode_longs (List.concat (map be32 l)) = Some l.
Proof.
  induction l as [|n l IH]; simpl; intros H; [reflexivity|].
  apply andb_prop in H as [Hn Hl]. apply N.ltb_lt in Hn.
  rewrite (IH Hl). simpl. now rewrite u32be_be32.
Qed.

Lemma decode_rationals_encode (l : list (N * N)) :
  forallb (fun r => (fst r <? 4294967296) && (snd r <? 4294967296)) l = true ->
  decode_rationals (List.concat (map encode_rational l)) = Some l.
Proof.
  induction l as [|[a b] l IH]; simpl; intros H; [reflexivity|].
  apply andb_prop in H as [Hn Hl]. apply andb_prop in Hn as [Ha Hb].
  apply N.ltb_lt in Ha, Hb.
  rewrite (IH Hl). simpl. now rewrite !u32be_be32.
Qed.

Lemma decode_encode_value (e : MetadataEntry) :
  value_fits (value e) = true ->
  decode_value (type e) (encode_value (value e)) = Some (value e).
Proof.
  unfold type. destruct (value e) as [l|l|l|l|l]; simpl; intros H;
    try reflexivity.
  - now rewrite decode_shorts_encode.
  - now rewrite decode_longs_encode.
  - now rewrite decode_rationals_encode.
Qed.

Lemma len_concat_fixed {A} (f : A -> buffer) (w : N) (l : list A) :
  (forall a, len (f a) = w) ->
  len (List.concat (map f l)) = N.of_nat (List.length l) * w.
Proof.
  intros Hf. induction l as [|a l IH]; [reflexivity|].
  cbn [List.concat map List.length].
  rewrite len_app, IH, Hf, Nat2N.inj_succ, N.mul_succ_l. lia.
Qed.

(** The payload occupies count times the width of the type. *)
Lemma len_encode_value (e : MetadataEntry) :
  len (encode_value (value e)) = count e * width (type e).
Proof.
  unfold type, count. destruct (value e) as [l|l|l|l|l]; simpl.
  - unfold len. lia.
  - unfold len. lia.
  - apply len_concat_fixed. reflexivity.
  - apply len_concat_fixed. reflexivity.
  - apply len_concat_fixed. reflexivity.
Qed.

Lemma count_le_len (e : MetadataEntry) :
  count e <= len (encode_value (value e)).
Proof.
  rewrite len_encode_value. destruct (type e); simpl; lia.
Qed.

Lemma pad4_inline (p : buffer) :
  len p <= 4 ->
  exists v0 v1 v2 v3,
    pad4 p = [v0; v1; v2; v3] /\
    firstn (N.to_nat (len p)) [v0; v1; v2; v3] = p.
Proof.
  intros H.
  destruct p as [|a [|b [|c [|d [|e p]]]]];
    try (do 4 eexists; split; reflexivity).
  exfalso. unfold len in H. simpl in H. lia.
Qed.

(** Reading back the entry written for [e], against a block that holds
    the payload where the entry says. *)
Lemma parse_entry_inline (blk : buffer) (e : MetadataEntry) :
  entry_fits e = true ->
  len (encode_value (value e)) <= 4 ->
  parse_entry blk
    (be16 (tagId e) ++ be16 (type_code (type e)) ++ be32 (count e)
     ++ pad4 (encode_value (value e))) = Some e.
Proof.
  intros Hfit Hlen.
  apply andb_prop in Hfit as [Htag Hval]. apply N.ltb_lt in Htag.
  destruct (pad4_inline _ Hlen) as (v0 & v1 & v2 & v3 & Hpad & Hfirst).
  destruct (be16_type_code (type e)) as (y0 & y1 & Hy & Hcode).
  pose proof (count_le_len e) as Hcount.
  rewrite Hpad, Hy. unfold be16 at 1. unfold be32. simpl app.
  unfold parse_entry. rewrite Hcode, type_of_code_type_code.
  rewrite u32be_be32 by lia. rewrite <- len_encode_value.
  replace (len (encode_value (value e)) <=? 4) with true
    by (symmetry; now apply N.leb_le).
  rewrite Hfirst, (decode_encode_value e Hval). simpl.
  rewrite u16be_be16 by assumption. now destruct e.
Qed.

Lemma parse_entry_offset (blk : buffer) (e : MetadataEntry) (off : N) :
  entry_fits e = true ->
  4 < len (encode_value (value e)) ->
  len blk < 4294967296 ->
  slice off (len (encode_value (value e))) blk = Some (encode_value (value e)) ->
  parse_entry blk
    (be16 (tagId e) ++ be16 (type_code (type e)) ++ be32 (count e)
     ++ be32 off) = Some e.
Proof.
  intros Hfit Hlen Hblk Hslice.
  apply andb_prop in Hfit as [Htag Hval]. apply N.ltb_lt in Htag.
  destruct (be16_type_code (type e)) as (y0 & y1 & Hy & Hcode).
  pose proof (count_le_len e) as Hcount.
  assert (Hoff : off + len (encode_value (value e)) <= len blk).
  { unfold slice in Hslice.
    destruct (N.leb_spec (off + len (encode_value (value e))) (len blk));
      [assumption | discriminate]. }
  rewrite Hy. unfold be16 at 1. unfold be32. simpl app.
  unfold parse_entry. rewrite Hcode, type_of_code_type_code.
  rewrite !u32be_be32 by lia. rewrite <- len_encode_value.
  replace (len (encode_value (value e)) <=? 4) with false
    by (symmetry; apply N.leb_gt; assumption).
  rewrite Hslice, (decode_encode_value e Hval). simpl.
  rewrite u16be_be16 by assumption. now destruct e.
Qed.

Lemma len_layout_entries (es : list MetadataEntry) (off : N) :
  len (fst (layout off es)) = 12 * N.of_nat (List.length es).
Proof.
  revert off. induction es as [|e r IH]; intros off; [reflexivity|].
  cbn [layout List.length]. rewrite Nat2N.inj_succ.
  destruct (len (encode_value (value e)) <=? 4) eqn:E.
  - specialize (IH off). destruct (layout off r) as [ents data].
    cbn [fst] in *. rewrite !len_app, IH, !len_be16, len_be32.
    apply N.leb_le in E.
    destruct (pad4_inline _ E) as (v0 & v1 & v2 & v3 & -> & _).
    rewrite !len_cons, len_nil. lia.
  - specialize (IH (off + len (encode_value (value e)
                                ++ even_pad (encode_value (value e))))).
    destruct (layout _ r) as [ents data].
    cbn [fst] in *. rewrite !len_app, IH, !len_be16, !len_be32. lia.
Qed.

(** The entries of a laid-out directory read back as the directory, in a
    block that holds the data area at the offsets the layout used. *)
Lemma parse_entries_layout (es : list MetadataEntry) :
  forall (off : N) (ents data : buffer) (blk A B rest : buffer),
    layout off es = (ents, data) ->
    forallb entry_fits es = true ->
    blk = A ++ data ++ B ->
    len A = off ->
    len blk < 4294967296 ->
    parse_entries blk (List.length es) (ents ++ rest) = Some es.
Proof.
  induction es as [|e r IH]; intros off ents data blk A B rest Hlay Hfit Hblk HA Hlen;
    [reflexivity|].
  cbn [forallb] in Hfit. apply andb_prop in Hfit as [He Hr].
  cbn [layout] in Hlay. cbn [List.length parse_entries].
  set (p := encode_value (value e)) in *.
  set (head := be16 (tagId e) ++ be16 (type_code (type e)) ++ be32 (count e)) in *.
  destruct (N.leb_spec (len p) 4) as [Hsmall|Hbig].
  - destruct (layout off r) as [ents' data'] eqn:Hlay'.
    cbv beta iota in Hlay. apply pair_equal_spec in Hlay as [<- <-].
    replace ((head ++ pad4 p ++ ents') ++ rest)
      with ((head ++ pad4 p) ++ ents' ++ rest)
      by (now rewrite <- !app_assoc).
    rewrite take_app.
    2:{ unfold head. rewrite !len_app, !len_be16, len_be32.
        destruct (pad4_inline _ Hsmall) as (v0 & v1 & v2 & v3 & -> & _).
        reflexivity. }
    subst head p. rewrite <- !app_assoc.
    rewrite (parse_entry_inline blk e He Hsmall).
    now rewrite (IH off ents' data' blk A B rest Hlay' Hr Hblk HA Hlen).
  - destruct (layout (off + len (p ++ even_pad p)) r) as [ents' data'] eqn:Hlay'.
    cbv beta iota in Hlay. apply pair_equal_spec in Hlay as [<- <-].
    replace ((head ++ be32 off ++ ents') ++ rest)
      with ((head ++ be32 off) ++ ents' ++ rest)
      by (now rewrite <- !app_assoc).
    rewrite take_app
      by (unfold head; now rewrite !len_app, !len_be16, !len_be32).
    subst head p. rewrite <- !app_assoc.
    rewrite (parse_entry_offset blk e off He Hbig Hlen).
    2:{ rewrite Hblk. rewrite <- !app_assoc. now apply slice_app. }
    set (p := encode_value (value e)) in *.
    rewrite (IH (off + len (p ++ even_pad p)) ents' data' blk
               (A ++ p ++ even_pad p) B rest Hlay' Hr); [reflexivity| | |assumption].
    + rewrite Hblk. now rewrite <- !app_assoc.
    + rewrite !len_app in *. lia.
Qed.

Lemma serialize_inv (d : MetadataDirectory) (blk : buffer) :
  serialize d = Ok blk ->
  blk = block d /\ forallb entry_fits d = true /\
  N.of_nat (List.length d) < 65536 /\ len blk < 4294967296.
Proof.
  unfold serialize.
  destruct (forallb entry_fits d) eqn:Hfit; simpl; [|discriminate].
  destruct (N.ltb_spec (N.of_nat (List.length d)) 65536); simpl; [|discriminate].
  destruct (N.ltb_spec (len (block d)) 4294967296); [|discriminate].
  intros E. injection E as <-. auto.
Qed.

(** Reading a serialized directory gives the directory back. *)
Lemma parse_serialize (d : MetadataDirectory) (blk : buffer) :
  serialize d = Ok blk -> parse blk = Ok d.
Proof.
  intros H. apply serialize_inv in H as (-> & Hfit & Hn & Hlen).
  unfold block in *.
  set (n := N.of_nat (List.length d)) in *.
  pose proof (len_layout_entries d (data_offset n)) as Hents.
  destruct (layout (data_offset n) d) as [ents data] eqn:Hlay.
  cbn [fst] in Hents. fold n in Hents.
  set (tail := be16 n ++ ents ++ be32 0 ++ data) in *.
  assert (Hgps : read_ifd (header ++ ifd0 ++ tail) gps_offset
                 = Some (List.length d, ents)).
  { unfold read_ifd.
    replace (header ++ ifd0 ++ tail)
      with ((header ++ ifd0) ++ be16 n ++ (ents ++ be32 0 ++ data))
      by (unfold tail; now rewrite <- !app_assoc).
    rewrite slice_app by reflexivity.
    unfold be16 at 1. rewrite u16be_be16 by assumption.
    replace ((header ++ ifd0) ++ be16 n ++ ents ++ be32 0 ++ data)
      with (((header ++ ifd0) ++ be16 n) ++ ents ++ (be32 0 ++ data))
      by (now rewrite <- !app_assoc).
    rewrite slice_app; [|reflexivity|assumption].
    simpl. unfold n. now rewrite Nat2N.id. }
  assert (Hifd0 : read_ifd (header ++ ifd0 ++ tail) 8
                  = Some (1%nat, firstn 12 (skipn 2 ifd0))).
  { unfold read_ifd.
    change (header ++ ifd0 ++ tail)
      with (header ++ be16 1 ++ (skipn 2 ifd0 ++ tail)).
    rewrite slice_app by reflexivity.
    change (header ++ be16 1 ++ skipn 2 ifd0 ++ tail)
      with ((header ++ be16 1) ++ firstn 12 (skipn 2 ifd0) ++ (be32 0 ++ tail)).
    cbn [be16 u16be]. change (u16be (byte_of_N (1 / 256)) (byte_of_N 1)) with 1.
    rewrite slice_app by reflexivity. reflexivity. }
  change (parse (header ++ ifd0 ++ tail))
    with (match read_ifd (header ++ ifd0 ++ tail) 8 with
          | None => Err MalformedContainer
          | Some (n0, raw0) =>
              match find_gps_pointer n0 raw0 with
              | None => Err MalformedContainer
              | Some gps =>
                  match read_ifd (header ++ ifd0 ++ tail) gps with
                  | None => Err MalformedContainer
                  | Some (n, raw) =>
                      match parse_entries (header ++ ifd0 ++ tail) n raw with
                      | None => Err MalformedContainer
                      | Some d => Ok d
                      end
                  end
              end
          end).
  rewrite Hifd0.
  change (find_gps_pointer 1 (firstn 12 (skipn 2 ifd0))) with (Some gps_offset).
  cbv beta iota. rewrite Hgps.
  rewrite <- (app_nil_r ents) at 1.
  rewrite (parse_entries_layout d (data_offset n) ents data
             (header ++ ifd0 ++ tail)
             (header ++ ifd0 ++ be16 n ++ ents ++ be32 0) [] [] Hlay Hfit);
    [reflexivity| | |assumption].
  - unfold tail. now rewrite <- !app_assoc, app_nil_r.
  - rewrite !len_app, Hents, len_be16, len_be32. unfold data_offset.
    change (len header) with 8. change (len ifd0) with 18.
    unfold gps_offset. lia.
Qed.

End TiffFacts.

(* ================================================================== *)
(** * Properties of the container strategies *)

Module ContainerFacts.
Import BytesFacts.

Local Open Scope N_scope.

Lemma byte_eqb_eq (a b : byte) : Byte.eqb a b = true -> a = b.
Proof. apply Byte.byte_dec_bl. Qed.

Lemma byte_eqb_refl (a : byte) : Byte.eqb a a = true.
Proof. now apply Byte.byte_dec_lb. Qed.

Lemma starts_with_app (p r : buffer) : starts_with p (p ++ r) = true.
Proof.
  induction p as [|x p IH]; simpl; [reflexivity|].
  now rewrite byte_eqb_refl.
Qed.

Lemma skipn_prefix (p r : buffer) : skipn (List.length p) (p ++ r) = r.
Proof. rewrite skipn_app, Nat.sub_diag, skipn_all. reflexivity. Qed.

Lemma filter_negb_filter {A} (p : A -> bool) (l : list A) :
  filter p (filter (fun x => negb (p x)) l) = [].
Proof.
  induction l as [|a l IH]; simpl; [reflexivity|].
  destruct (p a) eqn:E; simpl; [assumption|]. now rewrite E.
Qed.

Lemma filter_negb_idem {A} (p : A -> bool) (l : list A) :
  filter (fun x => negb (p x)) (filter (fun x => negb (p x)) l)
  = filter (fun x => negb (p x)) l.
Proof.
  induction l as [|a l IH]; simpl; [reflexivity|].
  destruct (p a) eqn:E; simpl; [assumption|]. now rewrite E, IH.
Qed.

Lemma forallb_filter {A} (q p : A -> bool) (l : list A) :
  forallb q l = true -> forallb q (filter p l) = true.
Proof.
  induction l as [|a l IH]; simpl; [reflexivity|].
  intros H. apply andb_prop in H as [Ha Hl].
  destruct (p a); simpl; [rewrite Ha|]; auto.
Qed.

End ContainerFacts.

Module JpegFacts.
Import Metadata Jpeg BytesFacts ContainerFacts.

Local Open Scope N_scope.

Lemma jpeg_segments_bytes_cons (s : segment) (l : list segment) :
  segments_bytes (s :: l) = segment_bytes s ++ segments_bytes l.
Proof. reflexivity. Qed.

(** What a successful scan says of the bytes it read. *)
Lemma jpeg_scan_inv (fuel : nat) :
  forall (b : buffer) (segs : list segment) (tail : buffer),
    scan fuel b = Ok (segs, tail) ->
    b = segments_bytes segs ++ tail /\
    forallb segment_ok segs = true /\ scan_start tail = true.
Proof.
  induction fuel as [|fuel IH]; intros b segs tail H; [discriminate|].
  cbn [scan] in H.
  destruct b as [|ff [|m rest]]; try discriminate.
  destruct (Byte.eqb ff xff) eqn:Eff; [|discriminate]. cbn [negb] in H.
  destruct (Byte.eqb m SOS || Byte.eqb m EOI) eqn:Em.
  - apply (f_equal (fun r => match r with Ok x => x | Err _ => ([], []) end)) in H.
    apply pair_equal_spec in H as [<- <-].
    repeat split. cbn [scan_start]. now rewrite Eff, Em.
  - destruct rest as [|l0 [|l1 body]]; try discriminate.
    destruct (N.ltb_spec (u16be l0 l1) 2) as [|HL]; [discriminate|].
    destruct (take (u16be l0 l1 - 2) body) as [[p after]|] eqn:Etake;
      [|discriminate].
    destruct (scan fuel after) as [[segs' tail']|] eqn:Escan; [|discriminate].
    cbn [bind] in H.
    apply (f_equal (fun r => match r with Ok x => x | Err _ => ([], []) end)) in H.
    apply pair_equal_spec in H as [<- <-].
    destruct (IH _ _ _ Escan) as (Hafter & Hok & Htail).
    apply take_inv in Etake as [Hbody Hp].
    apply byte_eqb_eq in Eff. subst ff.
    assert (HL2 : 2 + len p = u16be l0 l1) by lia.
    pose proof (u16be_bound l0 l1) as Hb.
    repeat split.
    + rewrite jpeg_segments_bytes_cons. unfold segment_bytes.
      cbn [marker payload]. rewrite HL2, be16_u16be, Hbody, Hafter.
      now rewrite <- !app_assoc.
    + cbn [forallb]. rewrite Hok. unfold segment_ok. cbn [marker payload].
      rewrite Em, HL2.
      replace (u16be l0 l1 <? 65536) with true
        by (symmetry; now apply N.ltb_lt).
      reflexivity.
    + exact Htail.
Qed.

(** Scanning the bytes written for well-formed segments gives them
    back. *)
Lemma jpeg_scan_print (segs : list segment) :
  forall (tail : buffer) (fuel : nat),
    forallb segment_ok segs = true ->
    scan_start tail = true ->
    (List.length segs < fuel)%nat ->
    scan fuel (segments_bytes segs ++ tail) = Ok (segs, tail).
Proof.
  induction segs as [|s segs IH]; intros tail fuel Hok Htail Hfuel.
  - destruct fuel as [|fuel]; [inversion Hfuel|].
    cbn [segments_bytes map List.concat app scan].
    destruct tail as [|ff [|m rest]]; try discriminate.
    cbn [scan_start] in Htail. apply andb_prop in Htail as [Hff Hm].
    now rewrite Hff, Hm.
  - destruct fuel as [|fuel]; [inversion Hfuel|].
    cbn [forallb] in Hok. apply andb_prop in Hok as [Hs Hsegs].
    unfold segment_ok in Hs. apply andb_prop in Hs as [Hm HL].
    apply negb_true_iff in Hm. apply N.ltb_lt in HL.
    rewrite jpeg_segments_bytes_cons. unfold segment_bytes.
    rewrite <- !app_assoc. unfold be16. cbn [app scan].
    rewrite byte_eqb_refl, Hm. cbn [negb].
    rewrite u16be_be16 by assumption.
    replace (2 + len (payload s) <? 2) with false
      by (symmetry; apply N.ltb_ge; lia).
    rewrite take_app by lia.
    rewrite IH; [|assumption|assumption|cbn [List.length] in Hfuel; lia].
    cbn [bind]. now destruct s.
Qed.

Lemma jpeg_length_segments_bytes (segs : list segment) :
  (List.length segs <= List.length (segments_bytes segs))%nat.
Proof.
  induction segs as [|s segs IH]; [apply Nat.le_refl|].
  rewrite jpeg_segments_bytes_cons, length_app. unfold segment_bytes.
  cbn [List.length app]. lia.
Qed.

Lemma jpeg_scan_start_length (tail : buffer) :
  scan_start tail = true -> (0 < List.length tail)%nat.
Proof. destruct tail; [discriminate | simpl; lia]. Qed.

Lemma jpeg_parse_inv (image : buffer) (segs : list segment) (tail : buffer) :
  parse image = Ok (segs, tail) ->
  image = SOI ++ segments_bytes segs ++ tail /\
  forallb segment_ok segs = true /\ scan_start tail = true.
Proof.
  unfold parse. destruct image as [|a [|b rest]]; try discriminate.
  destruct (buffer_eqb [a; b] SOI) eqn:E; [|discriminate].
  apply buffer_eqb_eq in E. intros H.
  apply jpeg_scan_inv in H as (-> & Hok & Htail).
  rewrite <- E. auto.
Qed.

Lemma jpeg_parse_print (segs : list segment) (tail : buffer) :
  forallb segment_ok segs = true ->
  scan_start tail = true ->
  parse (SOI ++ segments_bytes segs ++ tail) = Ok (segs, tail).
Proof.
  intros Hok Htail. unfold SOI. cbn [app parse].
  apply jpeg_scan_print; [assumption|assumption|].
  rewrite length_app.
  pose proof (jpeg_length_segments_bytes segs).
  pose proof (jpeg_scan_start_length _ Htail). lia.
Qed.

End JpegFacts.

Module PngFacts.
Import Metadata Png BytesFacts ContainerFacts.

Local Open Scope N_scope.

Lemma png_chunks_bytes_cons (c : chunk) (l : list chunk) :
  chunks_bytes (c :: l) = chunk_bytes c ++ chunks_bytes l.
Proof. reflexivity. Qed.

Lemma png_len_four (b : buffer) :
  len b = 4 -> exists b0 b1 b2 b3, b = [b0; b1; b2; b3].
Proof.
  destruct b as [|b0 [|b1 [|b2 [|b3 [|b4 b]]]]]; unfold len; simpl; intros H;
    try lia.
  now exists b0, b1, b2, b3.
Qed.

Lemma png_parse_chunks_inv (fuel : nat) :
  forall (b : buffer) (cs : list chunk),
    parse_chunks fuel b = Ok cs ->
    b = chunks_bytes cs /\ forallb chunk_ok cs = true.
Proof.
  induction fuel as [|fuel IH]; intros b cs H.
  - destruct b as [|l0 [|l1 [|l2 [|l3 [|t0 [|t1 [|t2 [|t3 rest]]]]]]]];
      try discriminate.
    injection H as <-. split; reflexivity.
  - destruct b as [|l0 [|l1 [|l2 [|l3 [|t0 [|t1 [|t2 [|t3 rest]]]]]]]];
      try discriminate.
    + injection H as <-. split; reflexivity.
    + cbn [parse_chunks] in H.
      destruct (take (u32be l0 l1 l2 l3) rest) as [[d after]|] eqn:Ed;
        [|discriminate].
      destruct (take 4 after) as [[c after']|] eqn:Ec; [|discriminate].
      destruct (parse_chunks fuel after') as [cs'|] eqn:Ecs; [|discriminate].
      cbn [bind] in H. injection H as <-.
      destruct (IH _ _ Ecs) as (Hafter & Hok).
      apply take_inv in Ed as [Hrest Hd]. apply take_inv in Ec as [Hafter' Hc].
      pose proof (u32be_bound l0 l1 l2 l3) as Hb.
      split.
      * rewrite png_chunks_bytes_cons. unfold chunk_bytes. cbn [ctype data crc].
        rewrite Hd, be32_u32be, Hrest, Hafter', Hafter.
        now rewrite <- !app_assoc.
      * cbn [forallb]. rewrite Hok. unfold chunk_ok. cbn [ctype data crc].
        rewrite Hd, Hc.
        replace (u32be l0 l1 l2 l3 <? 4294967296) with true
          by (symmetry; now apply N.ltb_lt).
        reflexivity.
Qed.

Lemma png_parse_chunks_print (cs : list chunk) :
  forall fuel : nat,
    forallb chunk_ok cs = true ->
    (List.length cs <= fuel)%nat ->
    parse_chunks fuel (chunks_bytes cs) = Ok cs.
Proof.
  induction cs as [|c cs IH]; intros fuel Hok Hfuel.
  - destruct fuel; reflexivity.
  - destruct fuel as [|fuel]; [inversion Hfuel|].
    cbn [forallb] in Hok. apply andb_prop in Hok as [Hc Hcs].
    unfold chunk_ok in Hc.
    apply andb_prop in Hc as [Hc Hd]. apply andb_prop in Hc as [Hty Hcrc].
    apply N.eqb_eq in Hty, Hcrc. apply N.ltb_lt in Hd.
    destruct (png_len_four _ Hty) as (t0 & t1 & t2 & t3 & Et).
    rewrite png_chunks_bytes_cons. unfold chunk_bytes. rewrite Et.
    rewrite <- !app_assoc. unfold be32. cbn [app parse_chunks].
    rewrite u32be_be32 by assumption.
    rewrite take_app by reflexivity.
    rewrite take_app by assumption.
    rewrite IH; [|assumption|cbn [List.length] in Hfuel; lia].
    cbn [bind]. rewrite <- Et. now destruct c.
Qed.

Lemma png_length_chunks_bytes (cs : list chunk) :
  (List.length cs <= List.length (chunks_bytes cs))%nat.
Proof.
  induction cs as [|c cs IH]; [apply Nat.le_refl|].
  rewrite png_chunks_bytes_cons, length_app. unfold chunk_bytes.
  cbn [List.length app be32]. lia.
Qed.

Lemma png_parse_inv (image : buffer) (h : chunk) (others : list chunk) :
  parse image = Ok (h, others) ->
  image = signature ++ chunks_bytes (h :: others) /\
  forallb chunk_ok (h :: others) = true /\ ctype h = IHDR.
Proof.
  unfold parse.
  destruct (take 8 image) as [[sig body]|] eqn:Esig; [|discriminate].
  destruct (buffer_eqb sig signature) eqn:E; [|discriminate].
  apply buffer_eqb_eq in E. subst sig.
  destruct (parse_chunks (List.length body) body) as [cs|] eqn:Ecs;
    [|discriminate].
  cbn [bind]. destruct cs as [|h' others']; [discriminate|].
  destruct (buffer_eqb (ctype h') IHDR) eqn:Eh; [|discriminate].
  intros H. injection H as <- <-.
  apply take_inv in Esig as [-> _].
  apply png_parse_chunks_inv in Ecs as [-> Hok].
  apply buffer_eqb_eq in Eh. auto.
Qed.

Lemma png_parse_print (h : chunk) (others : list chunk) :
  forallb chunk_ok (h :: others) = true ->
  ctype h = IHDR ->
  parse (signature ++ chunks_bytes (h :: others)) = Ok (h, others).
Proof.
  intros Hok Hh. unfold parse.
  rewrite take_app by reflexivity. rewrite buffer_eqb_refl.
  rewrite png_parse_chunks_print; [|assumption|apply png_length_chunks_bytes].
  cbn [bind]. now rewrite Hh, buffer_eqb_refl.
Qed.

End PngFacts.

Module WebpFacts.
Import Metadata Webp BytesFacts ContainerFacts.

Local Open Scope N_scope.

Lemma webp_chunks_bytes_cons (c : chunk) (l : list chunk) :
  chunks_bytes (c :: l) = chunk_bytes c ++ chunks_bytes l.
Proof. reflexivity. Qed.

Lemma webp_chunks_bytes_app (l1 l2 : list chunk) :
  chunks_bytes (l1 ++ l2) = chunks_bytes l1 ++ chunks_bytes l2.
Proof. unfold chunks_bytes. now rewrite map_app, concat_app. Qed.

Lemma webp_parse_chunks_inv (fuel : nat) :
  forall (b : buffer) (cs : list chunk),
    parse_chunks fuel b = Ok cs ->
    b = chunks_bytes cs /\ forallb chunk_ok cs = true.
Proof.
  induction fuel as [|fuel IH]; intros b cs H.
  - destruct b as [|t0 [|t1 [|t2 [|t3 [|l0 [|l1 [|l2 [|l3 rest]]]]]]]];
      try discriminate.
    injection H as <-. split; reflexivity.
  - destruct b as [|t0 [|t1 [|t2 [|t3 [|l0 [|l1 [|l2 [|l3 rest]]]]]]]];
      try discriminate.
    + injection H as <-. split; reflexivity.
    + cbn [parse_chunks] in H.
      set (L := u32le l0 l1 l2 l3) in *.
      destruct (take L rest) as [[p after]|] eqn:Ep; [|discriminate].
      destruct (take (if N.odd L then 1 else 0) after) as [[pad after']|] eqn:Epad;
        [|discriminate].
      destruct (parse_chunks fuel after') as [cs'|] eqn:Ecs; [|discriminate].
      cbn [bind] in H. injection H as <-.
      destruct (IH _ _ Ecs) as (Hafter & Hok).
      apply take_inv in Ep as [Hrest Hp].
      apply take_inv in Epad as [Hafter' Hpad].
      assert (Hb : L < 4294967296) by apply u32be_bound.
      split.
      * rewrite webp_chunks_bytes_cons. unfold chunk_bytes.
        cbn [tag payload padding].
        rewrite Hp. unfold L at 1. rewrite le32_u32le, Hrest, Hafter', Hafter.
        now rewrite <- !app_assoc.
      * cbn [forallb]. rewrite Hok. unfold chunk_ok.
        cbn [tag payload padding]. rewrite Hp, Hpad.
        rewrite (N.eqb_refl (if N.odd L then 1 else 0)).
        replace (L <? 4294967296) with true by (symmetry; now apply N.ltb_lt).
        reflexivity.
Qed.

Lemma webp_parse_chunks_print (cs : list chunk) :
  forall fuel : nat,
    forallb chunk_ok cs = true ->
    (List.length cs <= fuel)%nat ->
    parse_chunks fuel (chunks_bytes cs) = Ok cs.
Proof.
  induction cs as [|c cs IH]; intros fuel Hok Hfuel.
  - destruct fuel; reflexivity.
  - destruct fuel as [|fuel]; [inversion Hfuel|].
    cbn [forallb] in Hok. apply andb_prop in Hok as [Hc Hcs].
    unfold chunk_ok in Hc.
    apply andb_prop in Hc as [Hc Hpad]. apply andb_prop in Hc as [Hty Hp].
    apply N.eqb_eq in Hty, Hpad. apply N.ltb_lt in Hp.
    destruct (PngFacts.png_len_four _ Hty) as (t0 & t1 & t2 & t3 & Et).
    rewrite webp_chunks_bytes_cons. unfold chunk_bytes. rewrite Et.
    rewrite <- !app_assoc. unfold le32. cbn [app parse_chunks].
    rewrite u32le_le32 by assumption.
    rewrite take_app by reflexivity.
    rewrite take_app by assumption.
    rewrite IH; [|assumption|cbn [List.length] in Hfuel; lia].
    cbn [bind]. rewrite <- Et. now destruct c.
Qed.

Lemma webp_length_chunks_bytes (cs : list chunk) :
  (List.length cs <= List.length (chunks_bytes cs))%nat.
Proof.
  induction cs as [|c cs IH]; [apply Nat.le_refl|].
  rewrite webp_chunks_bytes_cons, length_app. unfold chunk_bytes.
  rewrite !length_app. cbn [List.length le32]. lia.
Qed.

Lemma webp_parse_inv (image : buffer) (cs : list chunk) :
  parse image = Ok cs ->
  image = RIFF ++ le32 (4 + len (chunks_bytes cs)) ++ WEBP_ ++ chunks_bytes cs /\
  forallb chunk_ok cs = true.
Proof.
  unfold parse.
  destruct image
    as [|r0 [|r1 [|r2 [|r3 [|s0 [|s1 [|s2 [|s3 [|w0 [|w1 [|w2 [|w3 body]]]]]]]]]]]];
    try discriminate.
  destruct (buffer_eqb [r0; r1; r2; r3] RIFF) eqn:Er; [|discriminate].
  destruct (buffer_eqb [w0; w1; w2; w3] WEBP_) eqn:Ew; [|discriminate].
  cbn [andb].
  destruct (N.eqb_spec (u32le s0 s1 s2 s3) (4 + len body)) as [Es|];
    [|discriminate].
  intros H. apply webp_parse_chunks_inv in H as [-> Hok].
  apply buffer_eqb_eq in Er, Ew. split; [|assumption].
  rewrite <- Es, le32_u32le, <- Er, <- Ew. reflexivity.
Qed.

Lemma webp_parse_print (cs : list chunk) :
  forallb chunk_ok cs = true ->
  4 + len (chunks_bytes cs) < 4294967296 ->
  parse (RIFF ++ le32 (4 + len (chunks_bytes cs)) ++ WEBP_ ++ chunks_bytes cs)
  = Ok cs.
Proof.
  intros Hok Hsize.
  change RIFF with [x52; x49; x46; x46].
  change WEBP_ with [x57; x45; x42; x50].
  unfold le32. cbn [app parse].
  rewrite u32le_le32 by assumption. rewrite N.eqb_refl.
  change (buffer_eqb [x52; x49; x46; x46] RIFF
          && buffer_eqb [x57; x45; x42; x50] WEBP_) with true.
  cbv iota.
  apply webp_parse_chunks_print; [assumption | apply webp_length_chunks_bytes].
Qed.

End WebpFacts.

Module JpegEmbed.
Import Metadata Jpeg BytesFacts ContainerFacts JpegFacts.

Local Open Scope N_scope.

Lemma jpeg_embed_shape (image : buffer) (d : MetadataDirectory) (out : buffer) :
  embed image d = Ok out ->
  exists segs tail blk,
    parse image = Ok (segs, tail) /\ Tiff.serialize d = Ok blk /\
    2 + len (exif_prefix ++ blk) < 65536 /\
    out = SOI ++ segments_bytes (fresh blk :: kept segs) ++ tail.
Proof.
  unfold embed. destruct (parse image) as [[segs tail]|] eqn:Ep; [|discriminate].
  cbn [bind]. destruct (Tiff.serialize d) as [blk|] eqn:Es; [|discriminate].
  cbn [bind fresh payload].
  destruct (N.ltb_spec (2 + len (exif_prefix ++ blk)) 65536) as [Hl|];
    [|discriminate].
  intros H. injection H as <-. exists segs, tail, blk.
  repeat split; try assumption.
  rewrite jpeg_segments_bytes_cons. now rewrite <- !app_assoc.
Qed.

Lemma jpeg_fresh_ok (blk : buffer) :
  2 + len (exif_prefix ++ blk) < 65536 -> segment_ok (fresh blk) = true.
Proof.
  intros H. unfold segment_ok, fresh. cbn [marker payload].
  apply N.ltb_lt in H. now rewrite H.
Qed.

Lemma jpeg_is_exif_fresh (blk : buffer) : is_exif (fresh blk) = true.
Proof.
  unfold is_exif, fresh, exif_prefix. cbn [marker payload].
  now rewrite <- app_assoc, byte_eqb_refl, starts_with_app.
Qed.

Lemma jpeg_kept_fresh (blk : buffer) (segs : list segment) :
  kept (fresh blk :: kept segs) = kept segs.
Proof.
  unfold kept. cbn [filter]. rewrite jpeg_is_exif_fresh. cbn [negb].
  apply filter_negb_idem.
Qed.

Lemma jpeg_parse_embedded (segs : list segment) (tail blk : buffer) :
  forallb segment_ok segs = true -> scan_start tail = true ->
  2 + len (exif_prefix ++ blk) < 65536 ->
  parse (SOI ++ segments_bytes (fresh blk :: kept segs) ++ tail)
  = Ok (fresh blk :: kept segs, tail).
Proof.
  intros Hok Htail Hl. apply jpeg_parse_print; [|assumption].
  cbn [forallb]. rewrite (jpeg_fresh_ok _ Hl). now apply forallb_filter.
Qed.

(** After [embed] the image holds one EXIF block, the one just written. *)
Lemma jpeg_blocks_after_embed (image : buffer) (d : MetadataDirectory) (out : buffer) :
  embed image d = Ok out ->
  exists blk, Tiff.serialize d = Ok blk /\ metadata_blocks out = Ok [blk].
Proof.
  intros H. apply jpeg_embed_shape in H as (segs & tail & blk & Hp & Hs & Hl & ->).
  apply jpeg_parse_inv in Hp as (_ & Hok & Htail).
  exists blk. split; [assumption|].
  unfold metadata_blocks. rewrite (jpeg_parse_embedded _ _ _ Hok Htail Hl).
  cbn [bind filter]. rewrite jpeg_is_exif_fresh.
  unfold kept. rewrite filter_negb_filter. cbn [map fresh payload].
  now rewrite skipn_prefix.
Qed.

(** Embedding over an embedded image is embedding over the original. *)
Lemma jpeg_embed_embed (image : buffer) (d1 d2 : MetadataDirectory) (mid out : buffer) :
  embed image d1 = Ok mid -> embed mid d2 = Ok out -> embed image d2 = Ok out.
Proof.
  intros H1 H2.
  apply jpeg_embed_shape in H1 as (segs & tail & blk1 & Hp & Hs1 & Hl1 & ->).
  pose proof Hp as Hp'. apply jpeg_parse_inv in Hp' as (_ & Hok & Htail).
  unfold embed in H2 |- *.
  rewrite (jpeg_parse_embedded _ _ _ Hok Htail Hl1) in H2. rewrite Hp.
  cbn [bind] in H2 |- *.
  destruct (Tiff.serialize d2) as [blk2|]; [|exact H2].
  cbn [bind] in H2 |- *.
  destruct (2 + len (payload (fresh blk2)) <? 65536); [|exact H2].
  rewrite <- H2. now rewrite jpeg_kept_fresh.
Qed.

Lemma jpeg_segment_framed (s : segment) :
  segment_ok s = true -> Framing.jpeg_segment (segment_bytes s).
Proof.
  intros H. unfold segment_ok in H. apply andb_prop in H as [_ H].
  apply N.ltb_lt in H.
  exists (marker s), (byte_of_N ((2 + len (payload s)) / 256)),
    (byte_of_N (2 + len (payload s))), (payload s).
  split; [reflexivity | now apply u16be_be16].
Qed.

Lemma jpeg_segments_framed (segs : list segment) :
  forallb segment_ok segs = true ->
  Forall Framing.jpeg_segment (map segment_bytes segs).
Proof.
  induction segs as [|s segs IH]; cbn [forallb map]; intros H; constructor.
  - apply jpeg_segment_framed. now apply andb_prop in H as [H _].
  - apply IH. now apply andb_prop in H as [_ H].
Qed.

Lemma jpeg_tail_is_scan_data (tail : buffer) :
  scan_start tail = true -> Framing.jpeg_scan_data tail.
Proof.
  destruct tail as [|ff [|m rest]]; try discriminate.
  cbn [scan_start]. intros H. apply andb_prop in H as [Hff Hm].
  apply byte_eqb_eq in Hff. subst ff. exists m, rest. split; [reflexivity|].
  apply orb_prop in Hm as [Hm|Hm]; apply byte_eqb_eq in Hm; auto.
Qed.

End JpegEmbed.

Module PngEmbed.
Import Metadata Png BytesFacts ContainerFacts PngFacts.

Local Open Scope N_scope.

Lemma png_embed_shape (image : buffer) (d : MetadataDirectory) (out : buffer) :
  embed image d = Ok out ->
  exists h others blk,
    parse image = Ok (h, others) /\ Tiff.serialize d = Ok blk /\
    len blk < 4294967296 /\
    out = signature ++ chunks_bytes (h :: fresh blk :: kept others).
Proof.
  unfold embed. destruct (parse image) as [[h others]|] eqn:Ep; [|discriminate].
  cbn [bind]. destruct (Tiff.serialize d) as [blk|] eqn:Es; [|discriminate].
  cbn [bind].
  destruct (N.ltb_spec (len blk) 4294967296) as [Hl|]; [|discriminate].
  intros H. injection H as <-. exists h, others, blk. auto.
Qed.

Lemma png_fresh_ok (blk : buffer) :
  len blk < 4294967296 -> chunk_ok (fresh blk) = true.
Proof.
  intros H. unfold chunk_ok, fresh. cbn [ctype data crc].
  apply N.ltb_lt in H. now rewrite H.
Qed.

Lemma png_is_exif_fresh (blk : buffer) : is_exif (fresh blk) = true.
Proof. reflexivity. Qed.

Lemma png_is_exif_header (h : chunk) : ctype h = IHDR -> is_exif h = false.
Proof. unfold is_exif. now intros ->. Qed.

Lemma png_kept_fresh (blk : buffer) (cs : list chunk) :
  kept (fresh blk :: kept cs) = kept cs.
Proof.
  unfold kept. cbn [filter]. rewrite png_is_exif_fresh. cbn [negb].
  apply filter_negb_idem.
Qed.

Lemma png_parse_embedded (h : chunk) (others : list chunk) (blk : buffer) :
  forallb chunk_ok (h :: others) = true -> ctype h = IHDR ->
  len blk < 4294967296 ->
  parse (signature ++ chunks_bytes (h :: fresh blk :: kept others))
  = Ok (h, fresh blk :: kept others).
Proof.
  intros Hok Hh Hl. apply png_parse_print; [|assumption].
  cbn [forallb] in *. apply andb_prop in Hok as [-> Hok].
  rewrite (png_fresh_ok _ Hl). now apply forallb_filter.
Qed.

(** After [embed] the image holds one metadata chunk, the one just
    written, and its checksum holds. *)
Lemma png_blocks_after_embed (image : buffer) (d : MetadataDirectory) (out : buffer) :
  embed image d = Ok out ->
  exists blk, Tiff.serialize d = Ok blk /\ metadata_blocks out = Ok [blk].
Proof.
  intros H. apply png_embed_shape in H as (h & others & blk & Hp & Hs & Hl & ->).
  apply png_parse_inv in Hp as (_ & Hok & Hh).
  exists blk. split; [assumption|].
  unfold metadata_blocks. rewrite (png_parse_embedded _ _ _ Hok Hh Hl).
  cbn [bind filter]. rewrite (png_is_exif_header _ Hh), png_is_exif_fresh.
  unfold kept. rewrite filter_negb_filter.
  cbn [forallb map fresh ctype data crc]. now rewrite buffer_eqb_refl.
Qed.

Lemma png_embed_embed (image : buffer) (d1 d2 : MetadataDirectory) (mid out : buffer) :
  embed image d1 = Ok mid -> embed mid d2 = Ok out -> embed image d2 = Ok out.
Proof.
  intros H1 H2.
  apply png_embed_shape in H1 as (h & others & blk1 & Hp & Hs1 & Hl1 & ->).
  pose proof Hp as Hp'. apply png_parse_inv in Hp' as (_ & Hok & Hh).
  unfold embed in H2 |- *.
  rewrite (png_parse_embedded _ _ _ Hok Hh Hl1) in H2. rewrite Hp.
  cbn [bind] in H2 |- *.
  destruct (Tiff.serialize d2) as [blk2|]; [|exact H2].
  cbn [bind] in H2 |- *.
  destruct (len blk2 <? 4294967296); [|exact H2].
  rewrite <- H2. now rewrite png_kept_fresh.
Qed.

Lemma png_chunk_framed (c : chunk) :
  chunk_ok c = true -> Framing.png_chunk (chunk_bytes c).
Proof.
  intros H. unfold chunk_ok in H.
  apply andb_prop in H as [H Hd]. apply andb_prop in H as [Hty Hcrc].
  apply N.eqb_eq in Hty, Hcrc. apply N.ltb_lt in Hd.
  exists (byte_of_N (len (data c) / 16777216)), (byte_of_N (len (data c) / 65536)),
    (byte_of_N (len (data c) / 256)), (byte_of_N (len (data c))),
    (ctype c), (data c), (crc c).
  repeat split; try assumption. now apply u32be_be32.
Qed.

Lemma png_chunks_framed (cs : list chunk) :
  forallb chunk_ok cs = true ->
  Forall Framing.png_chunk (map chunk_bytes cs).
Proof.
  induction cs as [|c cs IH]; cbn [forallb map]; intros H; constructor.
  - apply png_chunk_framed. now apply andb_prop in H as [H _].
  - apply IH. now apply andb_prop in H as [_ H].
Qed.

End PngEmbed.

Module WebpEmbed.
Import Metadata Webp BytesFacts ContainerFacts WebpFacts.

Local Open Scope N_scope.

Lemma webp_embed_shape (image : buffer) (d : MetadataDirectory) (out : buffer) :
  embed image d = Ok out ->
  exists cs blk,
    parse image = Ok cs /\ Tiff.serialize d = Ok blk /\
    len blk < 4294967296 /\
    4 + len (chunks_bytes (kept cs ++ [fresh blk])) < 4294967296 /\
    out = RIFF ++ le32 (4 + len (chunks_bytes (kept cs ++ [fresh blk])))
               ++ WEBP_ ++ chunks_bytes (kept cs ++ [fresh blk]).
Proof.
  unfold embed. destruct (parse image) as [cs|] eqn:Ep; [|discriminate].
  cbn [bind]. destruct (Tiff.serialize d) as [blk|] eqn:Es; [|discriminate].
  cbn [bind]. cbv zeta.
  destruct (N.ltb_spec (len blk) 4294967296) as [Hl|]; [|discriminate].
  destruct (N.ltb_spec (4 + len (chunks_bytes (kept cs ++ [fresh blk]))) 4294967296)
    as [Hb|]; [|discriminate].
  cbn [andb]. intros H. injection H as <-. exists cs, blk. auto.
Qed.

Lemma webp_fresh_ok (blk : buffer) :
  len blk < 4294967296 -> chunk_ok (fresh blk) = true.
Proof.
  intros H. unfold chunk_ok, fresh, pad_for. cbn [tag payload padding].
  apply N.ltb_lt in H. rewrite H. now destruct (N.odd (len blk)).
Qed.

Lemma webp_is_exif_fresh (blk : buffer) : is_exif (fresh blk) = true.
Proof. reflexivity. Qed.

Lemma webp_kept_fresh (blk : buffer) (cs : list chunk) :
  kept (kept cs ++ [fresh blk]) = kept cs.
Proof.
  unfold kept. rewrite filter_app. cbn [filter]. rewrite webp_is_exif_fresh.
  cbn [negb]. now rewrite app_nil_r, filter_negb_idem.
Qed.

Lemma webp_embedded_ok (cs : list chunk) (blk : buffer) :
  forallb chunk_ok cs = true -> len blk < 4294967296 ->
  forallb chunk_ok (kept cs ++ [fresh blk]) = true.
Proof.
  intros Hok Hl. rewrite forallb_app. cbn [forallb].
  rewrite (webp_fresh_ok _ Hl). unfold kept. now rewrite forallb_filter.
Qed.

(** After [embed] the file holds one metadata sub-chunk, the one just
    written. *)
Lemma webp_blocks_after_embed (image : buffer) (d : MetadataDirectory) (out : buffer) :
  embed image d = Ok out ->
  exists blk, Tiff.serialize d = Ok blk /\ metadata_blocks out = Ok [blk].
Proof.
  intros H. apply webp_embed_shape in H as (cs & blk & Hp & Hs & Hl & Hb & ->).
  apply webp_parse_inv in Hp as (_ & Hok).
  exists blk. split; [assumption|].
  unfold metadata_blocks.
  rewrite (webp_parse_print _ (webp_embedded_ok _ _ Hok Hl) Hb).
  cbn [bind]. rewrite filter_app. unfold kept. rewrite filter_negb_filter.
  reflexivity.
Qed.

Lemma webp_embed_embed (image : buffer) (d1 d2 : MetadataDirectory) (mid out : buffer) :
  embed image d1 = Ok mid -> embed mid d2 = Ok out -> embed image d2 = Ok out.
Proof.
  intros H1 H2.
  apply webp_embed_shape in H1 as (cs & blk1 & Hp & Hs1 & Hl1 & Hb1 & ->).
  pose proof Hp as Hp'. apply webp_parse_inv in Hp' as (_ & Hok).
  unfold embed in H2 |- *.
  rewrite (webp_parse_print _ (webp_embedded_ok _ _ Hok Hl1) Hb1) in H2. rewrite Hp.
  cbn [bind] in H2 |- *.
  destruct (Tiff.serialize d2) as [blk2|]; [|exact H2].
  cbn [bind] in H2 |- *.
  rewrite webp_kept_fresh in H2. exact H2.
Qed.

Lemma webp_chunk_framed (c : chunk) :
  chunk_ok c = true -> Framing.riff_chunk (chunk_bytes c).
Proof.
  intros H. unfold chunk_ok in H.
  apply andb_prop in H as [H Hpad]. apply andb_prop in H as [Hty Hp].
  apply N.eqb_eq in Hty, Hpad. apply N.ltb_lt in Hp.
  exists (tag c), (byte_of_N (len (payload c))),
    (byte_of_N (len (payload c) / 256)), (byte_of_N (len (payload c) / 65536)),
    (byte_of_N (len (payload c) / 16777216)), (payload c), (padding c).
  repeat split; try assumption. now apply u32le_le32.
Qed.

Lemma webp_chunks_framed (cs : list chunk) :
  forallb chunk_ok cs = true ->
  Forall Framing.riff_chunk (map chunk_bytes cs).
Proof.
  induction cs as [|c cs IH]; cbn [forallb map]; intros H; constructor.
  - apply webp_chunk_framed. now apply andb_prop in H as [H _].
  - apply IH. now apply andb_prop in H as [_ H].
Qed.

End WebpEmbed.

(* ================================================================== *)
(** * Properties of [embed] *)

Module ContainerEmbedderFacts.
Import Metadata BytesFacts ContainerFacts.

Local Open Scope N_scope.

(** C1. Whenever [embed] succeeds, each length field of its output tells
    the measured length of what it describes. JPEG: the output is the
    start-of-image marker, the APP1 segment whose two-byte length is 2
    plus the length of its payload (identifier and TIFF block), then
    segments that each satisfy the same rule, then the scan data. PNG: the
    signature, the header chunk, the metadata chunk whose four-byte length
    is the length of the TIFF block, then chunks that each satisfy the
    same rule. WEBP: the RIFF size is the length of the file less the 8
    bytes of tag and size, the sub-chunks each record the length of their
    payload, and the last one is the metadata sub-chunk whose length is
    the length of the TIFF block. *)
Theorem embed_length_fields (kind : ContainerKind) (image : buffer)
    (d : MetadataDirectory) (out : buffer) :
  ContainerEmbedder.embed kind image d = Ok out ->
  exists blk, Tiff.serialize d = Ok blk /\
  match kind with
  | JPEG =>
      exists l0 l1 others tail,
        out = Jpeg.SOI
              ++ ([xff; Jpeg.APP1; l0; l1] ++ Jpeg.exif_prefix ++ blk)
              ++ List.concat others ++ tail /\
        u16be l0 l1 = 2 + len (Jpeg.exif_prefix ++ blk) /\
        Forall Framing.jpeg_segment others /\
        Framing.jpeg_scan_data tail
  | PNG =>
      exists l0 l1 l2 l3 header others,
        out = Png.signature ++ header
              ++ ([l0; l1; l2; l3] ++ Png.eXIf ++ blk ++ Png.checksum Png.eXIf blk)
              ++ List.concat others /\
        u32be l0 l1 l2 l3 = len blk /\
        Framing.png_chunk header /\
        Forall Framing.png_chunk others
  | WEBP =>
      exists s0 s1 s2 s3 l0 l1 l2 l3 others,
        out = Webp.RIFF ++ [s0; s1; s2; s3] ++ Webp.WEBP_
              ++ List.concat others
              ++ (Webp.EXIF ++ [l0; l1; l2; l3] ++ blk ++ Webp.pad_for blk) /\
        8 + u32le s0 s1 s2 s3 = len out /\
        u32le l0 l1 l2 l3 = len blk /\
        Forall Framing.riff_chunk others
  end.
Proof.
  intros H. destruct kind; cbn [ContainerEmbedder.embed] in H.
  - apply JpegEmbed.jpeg_embed_shape in H as (segs & tail & blk & Hp & Hs & Hl & ->).
    apply JpegFacts.jpeg_parse_inv in Hp as (_ & Hok & Htail).
    exists blk. split; [assumption|].
    exists (byte_of_N ((2 + len (Jpeg.exif_prefix ++ blk)) / 256)),
      (byte_of_N (2 + len (Jpeg.exif_prefix ++ blk))),
      (map Jpeg.segment_bytes (Jpeg.kept segs)), tail.
    split; [|split; [|split]].
    + rewrite JpegFacts.jpeg_segments_bytes_cons. now rewrite <- !app_assoc.
    + now apply u16be_be16.
    + apply JpegEmbed.jpeg_segments_framed. now apply forallb_filter.
    + now apply JpegEmbed.jpeg_tail_is_scan_data.
  - apply PngEmbed.png_embed_shape in H as (h & others & blk & Hp & Hs & Hl & ->).
    apply PngFacts.png_parse_inv in Hp as (_ & Hok & Hh).
    cbn [forallb] in Hok. apply andb_prop in Hok as [Hhok Hok].
    exists blk. split; [assumption|].
    exists (byte_of_N (len blk / 16777216)), (byte_of_N (len blk / 65536)),
      (byte_of_N (len blk / 256)), (byte_of_N (len blk)),
      (Png.chunk_bytes h), (map Png.chunk_bytes (Png.kept others)).
    split; [|split; [|split]].
    + rewrite !PngFacts.png_chunks_bytes_cons. reflexivity.
    + now apply u32be_be32.
    + now apply PngEmbed.png_chunk_framed.
    + apply PngEmbed.png_chunks_framed. now apply forallb_filter.
  - apply WebpEmbed.webp_embed_shape in H as (cs & blk & Hp & Hs & Hl & Hb & ->).
    apply WebpFacts.webp_parse_inv in Hp as (_ & Hok).
    exists blk. split; [assumption|].
    set (body := Webp.chunks_bytes (Webp.kept cs ++ [Webp.fresh blk])) in *.
    exists (byte_of_N (4 + len body)), (byte_of_N ((4 + len body) / 256)),
      (byte_of_N ((4 + len body) / 65536)), (byte_of_N ((4 + len body) / 16777216)),
      (byte_of_N (len blk)), (byte_of_N (len blk / 256)),
      (byte_of_N (len blk / 65536)), (byte_of_N (len blk / 16777216)),
      (map Webp.chunk_bytes (Webp.kept cs)).
    split; [|split; [|split]].
    + assert (Hbody : body = List.concat (map Webp.chunk_bytes (Webp.kept cs))
                             ++ Webp.chunk_bytes (Webp.fresh blk)).
      { unfold body. rewrite WebpFacts.webp_chunks_bytes_app.
        unfold Webp.chunks_bytes. cbn [map List.concat].
        now rewrite app_nil_r. }
      apply (f_equal (fun x => Webp.RIFF ++ le32 (4 + len body)
                                 ++ Webp.WEBP_ ++ x)) in Hbody.
      exact Hbody.
    + rewrite u32le_le32 by assumption.
      rewrite !len_app, len_le32.
      change (len Webp.RIFF) with 4. change (len Webp.WEBP_) with 4. lia.
    + now apply u32le_le32.
    + apply WebpEmbed.webp_chunks_framed. now apply forallb_filter.
Qed.

Lemma embed_length_fields_witness :
  exists out blk,
    ContainerEmbedder.embed WEBP Samples.small_webp Samples.paris = Ok out /\
    Tiff.serialize Samples.paris = Ok blk /\
    exists s0 s1 s2 s3 l0 l1 l2 l3 others,
      out = Webp.RIFF ++ [s0; s1; s2; s3] ++ Webp.WEBP_
            ++ List.concat others
            ++ (Webp.EXIF ++ [l0; l1; l2; l3] ++ blk ++ Webp.pad_for blk) /\
      8 + u32le s0 s1 s2 s3 = len out /\
      u32le l0 l1 l2 l3 = len blk /\
      Forall Framing.riff_chunk others.
Proof.
  destruct (ContainerEmbedder.embed WEBP Samples.small_webp Samples.paris)
    as [out|] eqn:E; [|vm_compute in E; discriminate].
  destruct (embed_length_fields WEBP Samples.small_webp Samples.paris out E)
    as (blk & Hs & Hrest).
  exists out, blk. split; [reflexivity|]. split; [assumption|]. exact Hrest.
Defined.

Lemma extract_of_blocks (kind : ContainerKind) (out : buffer)
    (d : MetadataDirectory) (blk : buffer) :
  Tiff.serialize d = Ok blk ->
  ContainerEmbedder.metadata_blocks kind out = Ok [blk] ->
  ContainerEmbedder.extract kind out = Ok (Some d).
Proof.
  intros Hs Hb. unfold ContainerEmbedder.extract. rewrite Hb. cbn [bind].
  now rewrite (TiffFacts.parse_serialize d blk Hs).
Qed.

Lemma blocks_after_embed (kind : ContainerKind) (image : buffer)
    (d : MetadataDirectory) (out : buffer) :
  ContainerEmbedder.embed kind image d = Ok out ->
  exists blk, Tiff.serialize d = Ok blk /\
              ContainerEmbedder.metadata_blocks kind out = Ok [blk].
Proof.
  destruct kind; cbn [ContainerEmbedder.embed ContainerEmbedder.metadata_blocks].
  - apply JpegEmbed.jpeg_blocks_after_embed.
  - apply PngEmbed.png_blocks_after_embed.
  - apply WebpEmbed.webp_blocks_after_embed.
Qed.

Lemma embed_embed (kind : ContainerKind) (image : buffer)
    (d1 d2 : MetadataDirectory) (mid out : buffer) :
  ContainerEmbedder.embed kind image d1 = Ok mid ->
  ContainerEmbedder.embed kind mid d2 = Ok out ->
  ContainerEmbedder.embed kind image d2 = Ok out.
Proof.
  destruct kind; cbn [ContainerEmbedder.embed].
  - apply JpegEmbed.jpeg_embed_embed.
  - apply PngEmbed.png_embed_embed.
  - apply WebpEmbed.webp_embed_embed.
Qed.

(** C2. For each of the three strategies: when an image carries a
    directory D1 and [embed] writes D2 into it, the output holds exactly
    one metadata block, the serialization of D2, and [extract] gives D2
    back, whatever D1 was; if the image got D1 from an earlier [embed],
    the output is the one [embed] gives on the image before it. *)
Theorem embed_replaces (kind : ContainerKind) (image : buffer)
    (d1 d2 : MetadataDirectory) (out : buffer) :
  ContainerEmbedder.extract kind image = Ok (Some d1) ->
  ContainerEmbedder.embed kind image d2 = Ok out ->
  ContainerEmbedder.extract kind out = Ok (Some d2) /\
  (exists blk, Tiff.serialize d2 = Ok blk /\
               ContainerEmbedder.metadata_blocks kind out = Ok [blk]) /\
  (forall before, ContainerEmbedder.embed kind before d1 = Ok image ->
                  ContainerEmbedder.embed kind before d2 = Ok out).
Proof.
  intros _ H.
  destruct (blocks_after_embed kind image d2 out H) as (blk & Hs & Hb).
  split; [now apply (extract_of_blocks kind out d2 blk)|].
  split; [now exists blk|].
  intros before Hbefore. now apply (embed_embed kind before d1 d2 image out).
Qed.

Lemma embed_replaces_witness :
  Samples.replaced JPEG /\ Samples.replaced PNG /\ Samples.replaced WEBP.
Proof.
  assert (H : forall kind, Samples.replaced kind).
  { intros kind.
    assert (H1 : ContainerEmbedder.extract kind (Samples.tagged kind)
                 = Ok (Some Samples.paris))
      by (destruct kind; vm_compute; reflexivity).
    assert (H0 : ContainerEmbedder.embed kind (Samples.small kind) Samples.paris
                 = Ok (Samples.tagged kind))
      by (destruct kind; vm_compute; reflexivity).
    destruct (ContainerEmbedder.embed kind (Samples.tagged kind) Samples.sydney)
      as [out|] eqn:E; [|destruct kind; vm_compute in E; discriminate].
    destruct (embed_replaces kind (Samples.tagged kind) Samples.paris
                Samples.sydney out H1 E) as (Hx & _ & Hbefore).
    exists out. repeat split; auto. }
  repeat split; apply H.
Defined.

End ContainerEmbedderFacts.

(* ================================================================== *)
(** * Properties of the pipeline *)

Module GeotagPipelineFacts.
Import CoordinateCodec Metadata MetadataDirectoryBuilder GeotagPipeline.

Lemma validate_ok (c : Coordinate) :
  validate c = Ok tt ->
  exists latDMS latRef lonDMS lonRef,
    toDMS (latitude c) lat = Ok (latDMS, latRef) /\
    toDMS (longitude c) lon = Ok (lonDMS, lonRef).
Proof.
  unfold validate.
  destruct (toDMS (latitude c) lat) as [[latDMS latRef]|]; [|discriminate].
  destruct (toDMS (longitude c) lon) as [[lonDMS lonRef]|]; [|discriminate].
  intros _. now exists latDMS, latRef, lonDMS, lonRef.
Qed.

Lemma toDMS_error (x : decimal) (a : axis) (e : error) :
  toDMS x a = Err e -> e = InvalidCoordinate.
Proof.
  unfold toDMS. destruct x as [q| |]; [destruct (in_range q a)|..];
    intros H; try discriminate; now injection H.
Qed.

Lemma validate_error (c : Coordinate) (e : error) :
  validate c = Err e -> e = InvalidCoordinate.
Proof.
  unfold validate.
  destruct (toDMS (latitude c) lat) as [r|e1] eqn:E1; cbn [bind].
  - destruct (toDMS (longitude c) lon) as [r2|e2] eqn:E2; cbn [bind];
      [discriminate|].
    intros H. injection H as <-. now apply toDMS_error in E2.
  - intros H. injection H as <-. now apply toDMS_error in E1.
Qed.

(** C6. [run] is all-or-nothing. It returns bytes only when every stage
    has succeeded, and then they are the bytes [embed] returned for the
    transcoded image and the directory built from the coordinate. It
    returns an error otherwise, the error of the first stage that failed
    (validation, detection, transcoding, embedding, in this order), the
    stages before it having succeeded; an error carries no bytes. *)
Theorem run_all_or_nothing
    (transcode : buffer -> ContainerKind -> Format -> result (buffer * ContainerKind))
    (image : buffer) (c : Coordinate) (targetFormat : Format) :
  match run transcode image c targetFormat with
  | Ok out =>
      exists latDMS latRef lonDMS lonRef kind pixels targetKind,
        validate c = Ok tt /\
        toDMS (latitude c) lat = Ok (latDMS, latRef) /\
        toDMS (longitude c) lon = Ok (lonDMS, lonRef) /\
        detect image = Ok kind /\
        transcode image kind targetFormat = Ok (pixels, targetKind) /\
        ContainerEmbedder.embed targetKind pixels
          (buildGpsDirectory latDMS latRef lonDMS lonRef) = Ok out
  | Err e =>
      (validate c = Err e /\ e = InvalidCoordinate)
      \/ (validate c = Ok tt /\ detect image = Err e)
      \/ (validate c = Ok tt /\
          exists kind, detect image = Ok kind /\
                       transcode image kind targetFormat = Err e)
      \/ (validate c = Ok tt /\
          exists kind pixels targetKind latDMS latRef lonDMS lonRef,
            detect image = Ok kind /\
            transcode image kind targetFormat = Ok (pixels, targetKind) /\
            toDMS (latitude c) lat = Ok (latDMS, latRef) /\
            toDMS (longitude c) lon = Ok (lonDMS, lonRef) /\
            ContainerEmbedder.embed targetKind pixels
              (buildGpsDirectory latDMS latRef lonDMS lonRef) = Err e)
  end.
Proof.
  unfold run.
  destruct (validate c) as [[]|e0] eqn:Ev; cbn [bind].
  2:{ left. split; [reflexivity | now apply validate_error in Ev]. }
  destruct (validate_ok c Ev) as (latDMS & latRef & lonDMS & lonRef & Hlat & Hlon).
  destruct (detect image) as [kind|e1] eqn:Ed; cbn [bind].
  2:{ right. left. auto. }
  destruct (transcode image kind targetFormat) as [[pixels targetKind]|e2] eqn:Et;
    cbn [bind].
  2:{ right. right. left. split; [reflexivity|]. now exists kind. }
  rewrite Hlat, Hlon. cbn [bind].
  destruct (ContainerEmbedder.embed targetKind pixels
              (buildGpsDirectory latDMS latRef lonDMS lonRef)) as [out|e3] eqn:Ee.
  - exists latDMS, latRef, lonDMS, lonRef, kind, pixels, targetKind. auto 10.
  - right. right. right. split; [reflexivity|].
    exists kind, pixels, targetKind, latDMS, latRef, lonDMS, lonRef. auto 10.
Qed.

Example run_eiffel_png :
  bind (run Samples.sample_transcode Samples.small_jpeg
          (mkCoordinate (Finite (488584 # 10000)) (Finite (22945 # 10000))) png)
       (ContainerEmbedder.extract PNG)
  = Ok (Some Samples.paris).
Proof. vm_compute. reflexivity. Qed.

Example run_invalid_latitude :
  run Samples.sample_transcode Samples.small_jpeg
      (mkCoordinate (Finite (91 # 1)) (Finite 0)) png
  = Err InvalidCoordinate.
Proof. reflexivity. Qed.

Example run_unknown_source :
  run Samples.sample_transcode [x00; x01; x02]
      (mkCoordinate (Finite 0) (Finite 0)) webp
  = Err UnsupportedSourceFormat.
Proof. reflexivity. Qed.

End GeotagPipelineFacts.
